(** * LOLZTEAM client: the UNIVERSAL and RETRY wrappers and the Antipublic client

    A shallow embedding of [Client/Base/Wrappers.py] and [Client/Antipublic.py].

    - Python values are an inductive type; a [dict] with string keys is a
      [gmap string Value], and [dict.update] is the (left-biased) union with
      the updating mapping on the left.
    - An [async def] body is a finite tree of awaits ([Coro]): it returns,
      raises, or awaits a transport call or a sleep and goes on with what the
      await delivers (a value, or an exception thrown into the body).
    - Running a coroutine on an event loop is [drive], a state-passing
      interpreter over a [Store]: the instances with their [core] and
      [request] attributes, the cells of the [RequestCapture] objects, the log
      of the calls that reached the network and the log of the sleeps.
    - What lies outside the two files is an [Environment]: the answers of the
      network, and the parts of Python's [str] and truth test that depend on
      classes that are not in these files. *)

From stdpp Require Import base option list gmap strings pretty.
From Stdlib Require Import QArith.

#[local] Set Warnings "-register-all".
#[local] Close Scope Q_scope.
#[local] Open Scope string_scope.

(** ** Python values *)

(** [VUnset] is the sentinel [NONE] of [Base.Core]: "parameter not supplied".
    [VNone] is Python's [None]. *)
Inductive Value : Type :=
  | VNone
  | VUnset
  | VBool (b : bool)
  | VInt (z : Z)
  | VStr (s : string)
  | VList (l : list Value)
  | VDict (d : gmap string Value).

Abbreviation Dict := (gmap string Value).
Abbreviation Kwargs := (gmap string Value).

(** ** Exceptions *)

(** The builtin exceptions the code can meet and the exception classes of
    httpx. *)
Inductive Exc : Type :=
  | TypeError | AttributeError | KeyError | ValueError | RuntimeError
  | CancelledError
  | HTTPError | RequestError | TransportError
  | TimeoutException | ConnectTimeout | ReadTimeout | WriteTimeout | PoolTimeout
  | NetworkError | ConnectError | ReadError | WriteError | CloseError
  | ProtocolError | LocalProtocolError | RemoteProtocolError
  | ProxyError | UnsupportedProtocol | DecodingError | TooManyRedirects
  | HTTPStatusError.

#[global] Instance Exc_eq_dec : EqDecision Exc.
Proof. solve_decision. Defined.

(** The direct base class inside httpx's hierarchy ([None]: the base is a
    builtin class). *)
Definition base_class (e : Exc) : option Exc :=
  match e with
  | RequestError | HTTPStatusError => Some HTTPError
  | TransportError | DecodingError | TooManyRedirects => Some RequestError
  | TimeoutException | NetworkError | ProtocolError
  | ProxyError | UnsupportedProtocol => Some TransportError
  | ConnectTimeout | ReadTimeout | WriteTimeout | PoolTimeout =>
      Some TimeoutException
  | ConnectError | ReadError | WriteError | CloseError => Some NetworkError
  | LocalProtocolError | RemoteProtocolError => Some ProtocolError
  | _ => None
  end.

Fixpoint issubclass_upto (depth : nat) (e cls : Exc) : bool :=
  bool_decide (e = cls) ||
  match depth with
  | O => false
  | S d => match base_class e with
           | Some b => issubclass_upto d b cls
           | None => false
           end
  end.

(** The hierarchy is five classes deep. *)
Definition issubclass (e cls : Exc) : bool := issubclass_upto 5 e cls.

(** What a call or an await delivers: a value, or a raised exception. *)
Inductive Outcome (A : Type) : Type :=
  | Returns (a : A)
  | Raises (e : Exc).
Arguments Returns {A} a.
Arguments Raises {A} e.

(** ** The unset sentinel and the stripping helper *)

Definition is_NONE (v : Value) : bool :=
  match v with VUnset => true | _ => false end.

(** Modelled from the spec: [_NONE.TrimNONE] of [Base/Core.py], which is not
    among the source files. The spec: the entries whose value is the sentinel
    "unset" are removed before merging. The result is a new mapping. *)
Definition TrimNONE (obj : Dict) : Dict :=
  filter (λ kv, is_NONE kv.2 = false) obj.

(** A mapping is stripped when none of its values is the sentinel. *)
Definition stripped (m : Dict) : Prop :=
  map_Forall (λ _ v, is_NONE v = false) m.

#[global] Instance stripped_dec (m : Dict) : Decision (stripped m).
Proof. unfold stripped. apply _. Defined.

(** ** Transport calls *)

(** The arguments of one call of the transport entry point,
    [request(method, endpoint, **kwargs)], which is also the dict that
    [RequestCapture.__call__] stores: [{"method": ..., "endpoint": ...,
    **kwargs}]. The transport contract types the three groups [params],
    [data] and [json] as mappings; [None] is an absent keyword. [c_rest] holds
    the other keywords. *)
Record Call : Type := {
  c_method : string;
  c_endpoint : string;
  c_params : option Dict;
  c_data : option Dict;
  c_json : option Dict;
  c_rest : Kwargs
}.

(** The three [update]s of [job] and [job_on_request]: the mapping built
    from the groups [params], [data] and [json] of a call. *)
Definition merged_params (c : Call) : Dict :=
  TrimNONE (default ∅ (c_json c)) ∪
    (TrimNONE (default ∅ (c_data c)) ∪ TrimNONE (default ∅ (c_params c))).

(** ** Coroutines *)

Abbreviation ObjId := nat.

(** The receiver of a transport call in an operation body:
    [self.core.request] or [self.request]. *)
Inductive Target : Type :=
  | CoreOf (self : ObjId)
  | Itself (self : ObjId).

Inductive Event : Type :=
  | Request (on : Target) (c : Call)     (* await <on>.request(...) *)
  | Sleep (seconds : Q).                 (* await asyncio.sleep(seconds) *)

Inductive Coro : Type :=
  | Return (v : Value)
  | Raise (e : Exc)
  | Await (ev : Event) (k : Outcome Value → Coro).

(** [return await ev]: the awaited value is returned as it is, an exception
    thrown at the await leaves the body. *)
Definition pass (r : Outcome Value) : Coro :=
  match r with
  | Returns v => Return v
  | Raises e => Raise e
  end.

Definition await (ev : Event) : Coro := Await ev pass.

(** [v = await c; k v] in an enclosing coroutine. *)
Fixpoint bind (c : Coro) (k : Value → Coro) : Coro :=
  match c with
  | Return v => k v
  | Raise e => Raise e
  | Await ev k' => Await ev (λ r, bind (k' r) k)
  end.

(** [try: body  except <classes>: handler]: [handler e] is [None] when [e]
    is not an instance of the listed classes. *)
Fixpoint try_except (body : Coro) (handler : Exc → option Coro) : Coro :=
  match body with
  | Return v => Return v
  | Raise e => match handler e with
               | Some h => h
               | None => Raise e
               end
  | Await ev k => Await ev (λ r, try_except (k r) handler)
  end.

(** ** The store *)

(** What a [request] attribute can hold: a real transport entry point, or a
    [RequestCapture] object (identified by the cell of its [captured]
    attribute). *)
Inductive Callable : Type :=
  | Transport (t : nat)
  | RequestCapture (cell : nat).

Record Instance : Type := {
  core : option ObjId;
  request : option Callable
}.

Record Store : Type := {
  objs : list Instance;             (* the instances, by object id *)
  cells : list (option Call);       (* RequestCapture().captured *)
  wire : list (nat * Call);         (* the calls that reached the network *)
  slept : list Q                    (* the sleeps, in seconds *)
}.

Definition getattr_core (s : Store) (o : ObjId) : option ObjId :=
  objs s !! o ≫= core.

Definition getattr_request (s : Store) (o : ObjId) : option Callable :=
  objs s !! o ≫= request.

Definition setattr_request (o : ObjId) (f : Callable) (s : Store) : Store :=
  {| objs := alter (λ i, {| core := core i; request := Some f |}) o (objs s);
     cells := cells s; wire := wire s; slept := slept s |}.

(** [RequestCapture()]: a new object whose [captured] is [None]. *)
Definition new_capture (s : Store) : nat * Store :=
  (length (cells s),
   {| objs := objs s; cells := cells s ++ [None];
      wire := wire s; slept := slept s |}).

Definition set_captured (cell : nat) (c : Call) (s : Store) : Store :=
  {| objs := objs s; cells := <[cell := Some c]> (cells s);
     wire := wire s; slept := slept s |}.

Definition send (t : nat) (c : Call) (s : Store) : Store :=
  {| objs := objs s; cells := cells s;
     wire := wire s ++ [(t, c)]; slept := slept s |}.

Definition pause (seconds : Q) (s : Store) : Store :=
  {| objs := objs s; cells := cells s;
     wire := wire s; slept := slept s ++ [seconds] |}.

(** ** The environment *)

Class Environment : Type := {
  (** the answer of transport [t] to a call, given the calls sent so far *)
  transport : nat → list (nat * Call) → Call → Outcome Value;
  (** Python's [str] on lists, dicts and the sentinel *)
  repr_object : Value → string;
  (** the truth value of the sentinel *)
  unset_truthy : bool
}.

Section Wrappers.
Context `{Env : Environment}.

(** Python's truth test. *)
Definition truthy (v : Value) : bool :=
  match v with
  | VNone => false
  | VUnset => unset_truthy
  | VBool b => b
  | VInt z => negb (z =? 0)%Z
  | VStr s => match s with EmptyString => false | String _ _ => true end
  | VList l => negb (bool_decide (length l = 0))
  | VDict d => negb (bool_decide (size d = 0))
  end.

(** Python's [str]. *)
Definition py_str (v : Value) : string :=
  match v with
  | VNone => "None"
  | VBool true => "True"
  | VBool false => "False"
  | VInt z => pretty z
  | VStr s => s
  | _ => repr_object v
  end.

(** ** Running a coroutine *)

(** Calling what a [request] attribute holds. [RequestCapture.__call__]
    stores the call in [self.captured] and returns [None]. *)
Definition call_request (f : Callable) (c : Call) (s : Store)
  : Outcome Value * Store :=
  match f with
  | Transport t => (transport t (wire s) c, send t c s)
  | RequestCapture cell => (Returns VNone, set_captured cell c s)
  end.

Definition resolve (s : Store) (on : Target) : option Callable :=
  match on with
  | CoreOf o => getattr_core s o ≫= getattr_request s
  | Itself o => getattr_request s o
  end.

Definition perform (ev : Event) (s : Store) : Outcome Value * Store :=
  match ev with
  | Request on c =>
      match resolve s on with
      | Some f => call_request f c s
      | None => (Raises AttributeError, s)
      end
  | Sleep seconds => (Returns VNone, pause seconds s)
  end.

(** [loop.run_until_complete(c)] *)
Fixpoint drive (c : Coro) (s : Store) : Outcome Value * Store :=
  match c with
  | Return v => (Returns v, s)
  | Raise e => (Raises e, s)
  | Await ev k => let '(r, s') := perform ev s in drive (k r) s'
  end.

(** ** RETRY (Wrappers.py, lines 14-30) *)

(** [except (httpx.TimeoutException, httpx.ConnectTimeout, httpx.ReadTimeout,
    httpx.NetworkError)] *)
Definition is_transient (e : Exc) : bool :=
  issubclass e TimeoutException || issubclass e ConnectTimeout ||
  issubclass e ReadTimeout || issubclass e NetworkError.

(** The [for _ in range(count)] loop with [n] rounds left, and the last
    unguarded [return await func(...)] after it. [attempt] is the call of
    [func] on the wrapper's arguments, which makes a new coroutine every
    time. *)
Fixpoint retry_loop (n : nat) (attempt : Coro) : Coro :=
  match n with
  | O => attempt
  | S n' =>
      try_except attempt
        (λ e, if is_transient e
              then Some (Await (Sleep (1 # 2))
                           (λ r, match r with
                                 | Returns _ => retry_loop n' attempt
                                 | Raises e' => Raise e'
                                 end))
              else None)
  end.

Definition AsyncFunc := list Value → Kwargs → Coro.

(** [RETRY(count)(func)]; [count = None] is the default, 10. *)
Definition RETRY (count : option Z) (func : AsyncFunc) : AsyncFunc :=
  λ args kwargs,
    retry_loop (Z.to_nat (default 10%Z count)) (func args kwargs).

(** [k] attempts in a row, from [s], each failing with a transient fault and
    followed by a pause of half a second; [sk] is the store after the last
    pause. *)
Inductive transient_rounds (attempt : Coro) : nat → Store → Store → Prop :=
  | rounds_O s : transient_rounds attempt 0 s s
  | rounds_S k s e s1 sk :
      drive attempt s = (Raises e, s1) →
      is_transient e = true →
      transient_rounds attempt k (pause (1 # 2) s1) sk →
      transient_rounds attempt (S k) s sk.

(** The attempt does not end in a transient fault: it returns, or it raises
    another exception. *)
Definition settles (attempt : Coro) (s : Store) : Prop :=
  ∀ e, (drive attempt s).1 = Raises e → is_transient e = false.

(** ** UNIVERSAL (Wrappers.py, lines 33-142) *)

(** An [async def] method: [self], the positional and the keyword arguments. *)
Definition Operation := ObjId → list Value → Kwargs → Coro.

Record Function : Type := {
  qualname : string;               (* __qualname__ *)
  body : Operation
}.

(** The descriptor object [Inner(func, batchable)]. *)
Record Inner : Type := {
  func : Function;
  batchable : bool
}.

(** [UNIVERSAL(batchable)(func)]; [None] is the default, [False]. *)
Definition UNIVERSAL (batchable : option bool) (func : Function) : Inner :=
  {| func := func; batchable := default false batchable |}.

Record JobDescriptor : Type := {
  j_id : string;
  j_method : string;
  j_uri : string;
  j_params : Dict
}.

(** [job_on_request] (lines 103-115). [rnd] is what
    [random.randint(1, 1000000)] returns. *)
Definition job_on_request (rnd : Z) (c : Call) : JobDescriptor :=
  let params := TrimNONE (default ∅ (c_params c)) in
  let params := TrimNONE (default ∅ (c_data c)) ∪ params in
  let params := TrimNONE (default ∅ (c_json c)) ∪ params in
  {| j_id := py_str (default (VInt rnd) (c_rest c !! "job_id"));
     j_method := c_method c;
     j_uri := c_endpoint c;
     j_params := params |}.

(** The body of the [try] of [job] after the worker has returned
    (lines 88-99); [captured] is [capture.captured]. *)
Definition job_result (rnd : Z) (kwargs : Kwargs) (captured : option Call)
  : Outcome JobDescriptor :=
  match captured with
  | None => Raises AttributeError        (* None.get *)
  | Some captured =>
      let params := TrimNONE (default ∅ (c_params captured)) in
      let params := TrimNONE (default ∅ (c_data captured)) ∪ params in
      let params := TrimNONE (default ∅ (c_json captured)) ∪ params in
      Returns {| j_id := py_str (default (VInt rnd) (kwargs !! "job_id"));
                 j_method := c_method captured;
                 j_uri := c_endpoint captured;
                 j_params := params |}
  end.

(** [job] (lines 62-101). The worker thread runs the body on a loop of its
    own and the caller waits for it: the body is driven to its end. *)
Definition job (self : Inner) (instance : ObjId) (rnd : Z)
    (args : list Value) (kwargs : Kwargs) (s : Store)
  : Outcome JobDescriptor * Store :=
  let '(capture, s) := new_capture s in
  let head_instance :=
    match getattr_core s instance with
    | Some c => c
    | None => instance
    end in
  match getattr_request s head_instance with
  | None => (Raises AttributeError, s)
  | Some original_request =>
      let s := setattr_request head_instance (RequestCapture capture) s in
      let '(r, s) :=
        let '(done, s) := drive (body (func self) instance args kwargs) s in
        match done with
        | Raises e => (Raises e, s)
        | Returns _ =>
            (job_result rnd kwargs (mjoin (cells s !! capture)), s)
        end in
      (* finally *)
      (r, setattr_request head_instance original_request s)
  end.

(** The entry of the [try] of [job]: the new capture object, the head
    instance, what its [request] held, and the store with the capture object
    in its place. [None] when the head has no [request]. *)
Definition capturing (instance : ObjId) (s : Store)
  : option (nat * ObjId * Callable * Store) :=
  let '(capture, s1) := new_capture s in
  let head := default instance (getattr_core s1 instance) in
  match getattr_request s1 head with
  | None => None
  | Some original =>
      Some (capture, head, original,
            setattr_request head (RequestCapture capture) s1)
  end.

(** The calls that the capture object of [cell] receives while a coroutine
    is driven, in order. *)
Definition received (cell : nat) (ev : Event) (s : Store) : list Call :=
  match ev with
  | Request on c =>
      match resolve s on with
      | Some (RequestCapture cell') => if decide (cell' = cell) then [c] else []
      | _ => []
      end
  | Sleep _ => []
  end.

Fixpoint calls_into (cell : nat) (c : Coro) (s : Store) : list Call :=
  match c with
  | Await ev k =>
      let '(r, s') := perform ev s in
      (received cell ev s ++ calls_into cell (k r) s')%list
  | _ => []
  end.

(** The descriptor [job] builds from a captured call. *)
Definition descriptor (rnd : Z) (kwargs : Kwargs) (c : Call) : JobDescriptor :=
  {| j_id := py_str (default (VInt rnd) (kwargs !! "job_id"));
     j_method := c_method c;
     j_uri := c_endpoint c;
     j_params := merged_params c |}.

(** What [capture.captured] holds when the worker of [job] has finished. *)
Definition job_captured (self : Inner) (instance : ObjId)
    (args : list Value) (kwargs : Kwargs) (s : Store) : option Call :=
  match capturing instance s with
  | Some (capture, _, _, s2) =>
      mjoin (cells (drive (body (func self) instance args kwargs) s2).2
               !! capture)
  | None => None
  end.

(** The event loop of the calling thread, as [asyncio.get_event_loop] and
    [loop.is_running] see it. *)
Inductive Loop : Type :=
  | NoLoop        (* get_event_loop raises RuntimeError *)
  | Idle          (* an open loop that is not running *)
  | Closed        (* a closed loop, which is not running either *)
  | Running.      (* the caller is inside a running loop *)

Definition is_running (l : Loop) : bool :=
  match l with Running => true | _ => false end.

(** [loop.is_closed()], which [loop.run_until_complete] checks first: on a
    closed loop it raises [RuntimeError] ("Event loop is closed") and does
    not run the coroutine. *)
Definition is_closed (l : Loop) : bool :=
  match l with Closed => true | _ => false end.

(** What a call of [wrapper] hands back: a value, or the coroutine [run()]. *)
Inductive Delivered : Type :=
  | Materialized (v : Value)
  | Awaitable (c : Coro).

(** [wrapper] (lines 117-129) *)
Definition wrapper (self : Inner) (instance : ObjId)
    (args : list Value) (kwargs : Kwargs) (l : Loop) (s : Store)
  : Outcome Delivered * Loop * Store :=
  let run := body (func self) instance args kwargs in
  let loop := match l with
              | NoLoop => Idle     (* new_event_loop, set_event_loop *)
              | _ => l
              end in
  if is_running loop
  then (Returns (Awaitable run), loop, s)
  else if is_closed loop
  then (Raises RuntimeError, loop, s)
  else let '(r, s) := drive run s in
       (match r with
        | Returns v => Returns (Materialized v)
        | Raises e => Raises e
        end, loop, s).

(** What a blocking call hands back for the outcome of [run()]. *)
Definition materialize (r : Outcome Value) : Outcome Delivered :=
  match r with
  | Returns v => Returns (Materialized v)
  | Raises e => Raises e
  end.

(** The value of the attribute [job] of a bound wrapper. *)
Inductive JobAttr : Type :=
  | Job_on_request
  | Job.

(** What [Inner.__get__] returns: the function itself, or [wrapper] bound to
    the instance, with or without the attribute [job]. *)
Inductive Resolved : Type :=
  | Plain (f : Function)
  | Bound (self : Inner) (instance : ObjId) (job_attr : option JobAttr).

(** [Inner.__get__] (lines 43, 131-139) *)
Definition Inner_get (self : Inner) (instance : option ObjId) : Resolved :=
  match instance with
  | None => Plain (func self)
  | Some instance =>
      Bound self instance
        (if batchable self
         then if String.eqb (qualname (func self)) "APIClient.request"
              then Some Job_on_request
              else Some Job
         else None)
  end.

(** [<resolved>.job]: neither a function nor a wrapper has the attribute
    unless [__get__] has set it. *)
Definition getattr_job (r : Resolved) : Outcome JobAttr :=
  match r with
  | Bound _ _ (Some j) => Returns j
  | _ => Raises AttributeError
  end.

(** ** The Antipublic client (Antipublic.py) *)

(** *** Binding the arguments of a call to a signature *)

(** A parameter after [self]: its name and its default value, if any. The
    methods of the client have no [*args], no [**kwargs] and no keyword-only
    parameters. *)
Record Param : Type := {
  p_name : string;
  p_default : option Value
}.

(** The positional arguments fill the first parameters; more arguments than
    parameters is a [TypeError]. Returns the values bound and the parameters
    left. *)
Fixpoint bind_positional (sig : list Param) (args : list Value)
  : option (list Value * list Param) :=
  match args, sig with
  | [], _ => Some ([], sig)
  | _ :: _, [] => None
  | a :: args', _ :: sig' =>
      match bind_positional sig' args' with
      | Some (vs, rest) => Some (a :: vs, rest)
      | None => None
      end
  end.

(** The parameters left take the keyword of their name, else their default;
    one with neither is a [TypeError]. *)
Fixpoint bind_keywords (rest : list Param) (kwargs : Kwargs)
  : option (list Value) :=
  match rest with
  | [] => Some []
  | p :: rest' =>
      match from_option Some (p_default p) (kwargs !! p_name p) with
      | Some v =>
          match bind_keywords rest' kwargs with
          | Some vs => Some (v :: vs)
          | None => None
          end
      | None => None
      end
  end.

(** The values of the parameters in the order of the signature. A keyword
    that names no parameter, or one already bound by position, is a
    [TypeError]. *)
Definition bind_arguments (sig : list Param) (args : list Value)
    (kwargs : Kwargs) : option (list Value) :=
  match bind_positional sig args with
  | Some (vs, rest) =>
      if bool_decide (dom kwargs ⊆ list_to_set (p_name <$> rest))
      then (vs ++.) <$> bind_keywords rest kwargs
      else None
  | None => None
  end.

(** The calls that do not bind: more positional arguments than parameters;
    a keyword that names no parameter, or one given by position already; a
    parameter without default that is given neither by position nor by
    keyword. *)
Definition misbound (sig : list Param) (args : list Value) (kwargs : Kwargs)
  : Prop :=
  (length sig < length args)%nat ∨
  (∃ k, is_Some (kwargs !! k) ∧ k ∉ p_name <$> drop (length args) sig) ∨
  (∃ p, p ∈ drop (length args) sig ∧ p_default p = None ∧
        kwargs !! p_name p = None).

(** [async def name(self, <sig>): <code>] *)
Definition async_def (sig : list Param) (code : ObjId → list Value → Coro)
  : Operation :=
  λ self args kwargs,
    match bind_arguments sig args kwargs with
    | Some locals => code self locals
    | None => Raise TypeError
    end.

Definition required (name : string) : Param :=
  {| p_name := name; p_default := None |}.

Definition optional (name : string) (v : Value) : Param :=
  {| p_name := name; p_default := Some v |}.

(** *** The endpoint operations *)

(** [self.core.request(method, endpoint)] *)
Definition core_request (self : ObjId) (method endpoint : string) : Event :=
  Request (CoreOf self)
    {| c_method := method; c_endpoint := endpoint;
       c_params := None; c_data := None; c_json := None; c_rest := ∅ |}.

(** [self.core.request(method, endpoint, json=json)] *)
Definition core_request_json (self : ObjId) (method endpoint : string)
    (json : Dict) : Event :=
  Request (CoreOf self)
    {| c_method := method; c_endpoint := endpoint;
       c_params := None; c_data := None; c_json := Some json; c_rest := ∅ |}.

Definition lines_params : list Param := [optional "plain" (VBool false)].

Definition lines : Function :=
  {| qualname := "Antipublic.__Info.lines";
     body := async_def lines_params
       (λ self locals,
          match locals with
          | [plain] =>
              if truthy plain
              then await (core_request self "GET" "/countLinesPlain")
              else await (core_request self "GET" "/countLines")
          | _ => Raise TypeError
          end) |}.

Definition version : Function :=
  {| qualname := "Antipublic.__Info.version";
     body := async_def []
       (λ self _, await (core_request self "GET" "/version")) |}.

Definition access : Function :=
  {| qualname := "Antipublic.__Account.access";
     body := async_def []
       (λ self _, await (core_request self "GET" "/checkAccess")) |}.

Definition queries : Function :=
  {| qualname := "Antipublic.__Account.queries";
     body := async_def []
       (λ self _, await (core_request self "GET" "/availableQueries")) |}.

Definition check_params : list Param :=
  [required "lines"; optional "insert" (VBool false)].

Definition check : Function :=
  {| qualname := "Antipublic.check";
     body := async_def check_params
       (λ self locals,
          match locals with
          | [lines; insert] =>
              let json : Dict :=
                <["lines" := lines]> (<["insert" := insert]> ∅) in
              await (core_request_json self "POST" "/checkLines" json)
          | _ => Raise TypeError
          end) |}.

Definition search_params : list Param :=
  [required "searchBy"; required "query";
   optional "direction" VUnset; optional "token" VUnset].

Definition search : Function :=
  {| qualname := "Antipublic.search";
     body := async_def search_params
       (λ self locals,
          match locals with
          | [searchBy; query; direction; token] =>
              let json : Dict :=
                <["searchBy" := searchBy]> (<["query" := query]>
                  (<["direction" := direction]>
                     (<["pageToken" := token]> ∅))) in
              await (core_request_json self "POST" "/search" json)
          | _ => Raise TypeError
          end) |}.

Definition passwords_params : list Param :=
  [required "emails"; optional "limit" VUnset].

Definition passwords : Function :=
  {| qualname := "Antipublic.passwords";
     body := async_def passwords_params
       (λ self locals,
          match locals with
          | [emails; limit] =>
              let json : Dict :=
                <["emails" := emails]> (<["limit" := limit]> ∅) in
              await (core_request_json self "POST" "/emailPasswords" json)
          | _ => Raise TypeError
          end) |}.

(** The seven endpoint operations, each declared with [@UNIVERSAL()], with
    the parameters of their signatures. *)
Definition Antipublic_endpoints : list (list Param * Inner) :=
  [(lines_params, UNIVERSAL None lines);
   ([], UNIVERSAL None version);
   ([], UNIVERSAL None access);
   ([], UNIVERSAL None queries);
   (check_params, UNIVERSAL None check);
   (search_params, UNIVERSAL None search);
   (passwords_params, UNIVERSAL None passwords)].

Definition Antipublic_operations : list Inner := snd <$> Antipublic_endpoints.

(** [Antipublic.__init__] (lines 58-71), as far as the attributes the
    wrappers read go: the client, whose [core] is itself and whose [request]
    is the transport entry point [t] of [APIClient], and the two groups
    [info] and [account], whose [core] is the client. Returns the three
    object ids. *)
Definition Antipublic_init (t : nat) (s : Store)
  : (ObjId * ObjId * ObjId) * Store :=
  let client := length (objs s) in
  ((client, S client, S (S client)),
   {| objs := objs s ++
        [ {| core := Some client; request := Some (Transport t) |};
          {| core := Some client; request := None |};
          {| core := Some client; request := None |} ];
      cells := cells s; wire := wire s; slept := slept s |}).

(** ** Runs inside a capture *)

(** The object whose [request] a transport call of a body goes to: the
    [core] of [self], or [self]. *)
Definition receiver (l : list Instance) (on : Target) : option ObjId :=
  match on with
  | CoreOf o => l !! o ≫= core
  | Itself o => Some o
  end.

(** The run of a body while a capture object is the [request] of [head]:
    the outcome and the calls, in order, when every transport call on the
    way goes to [head] and is thus answered [None]; [None] when one goes to
    another object. *)
Fixpoint stub_run (l : list Instance) (head : ObjId) (c : Coro)
  : option (Outcome Value * list Call) :=
  match c with
  | Return v => Some (Returns v, [])
  | Raise e => Some (Raises e, [])
  | Await (Request on call) k =>
      if decide (receiver l on = Some head)
      then match stub_run l head (k (Returns VNone)) with
           | Some (r, calls) => Some (r, call :: calls)
           | None => None
           end
      else None
  | Await (Sleep _) k => stub_run l head (k (Returns VNone))
  end.

(** What [job] hands back for such a run. *)
Definition job_outcome (rnd : Z) (kwargs : Kwargs)
    (run : Outcome Value * list Call) : Outcome JobDescriptor :=
  match run.1 with
  | Raises e => Raises e
  | Returns _ =>
      match last run.2 with
      | Some c => Returns (descriptor rnd kwargs c)
      | None => Raises AttributeError
      end
  end.

End Wrappers.

(** * Concrete inputs *)

(** A network whose transports fail with [ReadTimeout] until [n] calls have
    been sent and answer ["ok"] from then on. *)
Definition flaky (n : nat) : Environment :=
  {| transport := λ _ sent _,
       if decide (length sent < n) then Raises ReadTimeout
       else Returns (VStr "ok");
     repr_object := λ _, "<object>";
     unset_truthy := true |}.

Definition empty_store : Store :=
  {| objs := []; cells := []; wire := []; slept := [] |}.

(** The store after [Antipublic(token)]: the client is object 0, its groups
    [info] and [account] are the objects 1 and 2. *)
Definition client_store : Store := (Antipublic_init 0 empty_store).2.

Definition call (method endpoint : string) : Call :=
  {| c_method := method; c_endpoint := endpoint;
     c_params := None; c_data := None; c_json := None; c_rest := ∅ |}.

(** The call of [self.core.request("POST", endpoint, json=json)]. *)
Definition post (endpoint : string) (json : Dict) : Call :=
  {| c_method := "POST"; c_endpoint := endpoint;
     c_params := None; c_data := None; c_json := Some json; c_rest := ∅ |}.

(** A body that makes no transport call. *)
Definition no_call : Function :=
  {| qualname := "Client.no_call"; body := λ _ _ _, Return VNone |}.

(** A body that makes two transport calls. *)
Definition two_calls : Function :=
  {| qualname := "Client.two_calls";
     body := λ self _ _,
       Await (Request (CoreOf self) (call "GET" "/first"))
         (λ r, match r with
               | Returns _ => await (Request (CoreOf self) (call "POST" "/second"))
               | Raises e => Raise e
               end) |}.

(** A body that fails after its transport call. *)
Definition failing : Function :=
  {| qualname := "Client.failing";
     body := λ self _ _,
       Await (Request (CoreOf self) (call "GET" "/first"))
         (λ _, Raise ValueError) |}.

(** A body that awaits the [request] of its own instance. *)
Definition own_request : Function :=
  {| qualname := "Group.own_request";
     body := λ self _ _, await (Request (Itself self) (call "GET" "/first")) |}.

(** A client (object 0, transport 0) and a group (object 1) whose [core] is
    the client and which holds a transport of its own (transport 1). *)
Definition two_transports : Store :=
  {| objs := [ {| core := Some 0; request := Some (Transport 0) |};
               {| core := Some 0; request := Some (Transport 1) |} ];
     cells := []; wire := []; slept := [] |}.

(** An object with neither [core] nor [request]. *)
Definition bare_store : Store :=
  {| objs := [ {| core := None; request := None |} ];
     cells := []; wire := []; slept := [] |}.

(** One GET of /version through the client. *)
Definition ping : AsyncFunc :=
  λ _ _, await (Request (Itself 0) (call "GET" "/version")).

(** A call whose three groups share the key ["k"], and whose query and form
    groups share the key ["q"]; the JSON group maps ["u"] to the sentinel. *)
Definition overlapping : Call :=
  {| c_method := "POST"; c_endpoint := "/x";
     c_params := Some (<["k" := VInt 1]> (<["q" := VInt 1]>
                         (<["u" := VInt 1]> ∅)));
     c_data := Some (<["k" := VInt 2]> (<["q" := VInt 2]> ∅));
     c_json := Some (<["k" := VInt 3]> (<["u" := VUnset]> ∅));
     c_rest := ∅ |}.

(** A body that awaits the one call [overlapping]. *)
Definition sends_overlapping : Function :=
  {| qualname := "Client.sends_overlapping";
     body := λ self _ _, await (Request (CoreOf self) overlapping) |}.

(** The client's store inside a capture: a capture object, whose cell is 0,
    is the [request] of the client. *)
Definition capture_store : Store :=
  setattr_request 0 (RequestCapture 0) (new_capture client_store).2.

Definition check_kwargs : Kwargs :=
  <["lines" := VList [VStr "a:b"; VStr "c:d"]]> (<["insert" := VBool true]> ∅).

(** * Properties *)

(** ** Stripping and merging *)

Lemma lookup_TrimNONE (m : Dict) (k : string) (v : Value) :
  TrimNONE m !! k = Some v ↔ m !! k = Some v ∧ v ≠ VUnset.
Proof.
  unfold TrimNONE. rewrite map_lookup_filter_Some. simpl.
  split; intros [H1 H2]; split; try done.
  - intros ->. done.
  - destruct v; done.
Qed.

Lemma lookup_TrimNONE_None (m : Dict) (k : string) :
  TrimNONE m !! k = None ↔ m !! k = None ∨ m !! k = Some VUnset.
Proof.
  unfold TrimNONE. rewrite map_lookup_filter_None. simpl. split.
  - intros [H | H]; [by left |].
    destruct (m !! k) as [v|] eqn:E; [| by left].
    right. destruct v; try (exfalso; by apply (H _ eq_refl)). done.
  - intros [H | H]; [by left |]. right. intros v Hv.
    rewrite H in Hv. by injection Hv as <-.
Qed.

Lemma TrimNONE_stripped (m : Dict) : stripped (TrimNONE m).
Proof.
  intros k v H. apply lookup_TrimNONE in H as [_ H]. by destruct v.
Qed.

Lemma TrimNONE_id (m : Dict) : stripped m → TrimNONE m = m.
Proof.
  intros Hm. apply map_eq. intros k.
  destruct (m !! k) as [v|] eqn:E.
  - apply lookup_TrimNONE. split; [done |]. intros ->.
    by specialize (Hm k _ E).
  - apply lookup_TrimNONE_None. by left.
Qed.

Section Properties.
Context `{Env : Environment}.

Lemma job_on_request_params (rnd : Z) (c : Call) :
  j_params (job_on_request rnd c) = merged_params c.
Proof. reflexivity. Qed.

(** ** Running coroutines *)

Lemma perform_objs ev s : objs (perform ev s).2 = objs s.
Proof.
  destruct ev as [on c | d]; simpl; [| done].
  destruct (resolve s on) as [[t | cell] |]; done.
Qed.

Lemma drive_objs c : ∀ s, objs (drive c s).2 = objs s.
Proof.
  induction c as [v | e | ev k IH]; intros s; simpl; try done.
  destruct (perform ev s) as [r s'] eqn:E.
  rewrite IH. by rewrite <- (perform_objs ev s), E.
Qed.

Lemma perform_cells_length ev s :
  length (cells (perform ev s).2) = length (cells s).
Proof.
  destruct ev as [on c | d]; simpl; [| done].
  destruct (resolve s on) as [[t | cell] |]; simpl; try done.
  by rewrite length_insert.
Qed.

(** Awaiting a coroutine inside another: the awaited one runs first, and
    its exception leaves the enclosing coroutine. *)
Lemma drive_bind c k : ∀ s,
  drive (bind c k) s =
  match drive c s with
  | (Returns v, s') => drive (k v) s'
  | (Raises e, s') => (Raises e, s')
  end.
Proof.
  induction c as [v | e | ev k' IH]; intros s; simpl; try done.
  by destruct (perform ev s) as [r s'].
Qed.

Lemma drive_try_except c h : ∀ s,
  drive (try_except c h) s =
  match drive c s with
  | (Returns v, s') => (Returns v, s')
  | (Raises e, s') =>
      match h e with
      | Some c' => drive c' s'
      | None => (Raises e, s')
      end
  end.
Proof.
  induction c as [v | e | ev k IH]; intros s; simpl; try done.
  - by destruct (h e).
  - by destruct (perform ev s) as [r s'].
Qed.

(** ** The dual-mode dispatcher *)

(** C1, as the code has it. A call of the bound wrapper where the thread
    has no current loop, or an open loop that is not running, drives [run()]
    to its end and hands back its value; an exception of the body leaves the
    call. Where the current loop is closed, which is not running either,
    [run_until_complete] raises [RuntimeError] and the body is not run. In
    none of these cases is a coroutine handed back. Where a loop is running
    the call runs nothing and hands back the coroutine [run()]; from whatever
    store it is then driven, awaited by the caller ([bind]) or on its own, it
    delivers what the blocking call delivers from that store. *)
Theorem wrapper_dual_mode (self : Inner) (instance : ObjId)
    (args : list Value) (kwargs : Kwargs) (s : Store) :
  let run := body (func self) instance args kwargs in
  let blocking s := (materialize (drive run s).1, Idle, (drive run s).2) in
  wrapper self instance args kwargs NoLoop s = blocking s ∧
  wrapper self instance args kwargs Idle s = blocking s ∧
  wrapper self instance args kwargs Closed s = (Raises RuntimeError, Closed, s) ∧
  (∀ l c, is_running l = false →
     (wrapper self instance args kwargs l s).1.1 ≠ Returns (Awaitable c)) ∧
  ∃ pending,
    wrapper self instance args kwargs Running s
      = (Returns (Awaitable pending), Running, s) ∧
    ∀ s',
      (∀ k, drive (bind pending k) s' =
            match drive pending s' with
            | (Returns v, s'') => drive (k v) s''
            | (Raises e, s'') => (Raises e, s'')
            end) ∧
      drive (bind pending Return) s' = drive pending s' ∧
      wrapper self instance args kwargs Idle s'
        = (materialize (drive pending s').1, Idle, (drive pending s').2).
Proof.
  intros run blocking. subst blocking. unfold wrapper. fold run. simpl.
  split; [by destruct (drive run s) |]. split; [by destruct (drive run s) |].
  split; [done |]. split.
  - intros l c Hl. destruct l; try done; simpl;
      by destruct (drive run s) as [[v | e] s'].
  - exists run. split; [done |]. intros s'. split; [| split].
    + intros k. apply drive_bind.
    + rewrite drive_bind. by destruct (drive run s') as [[v | e] s''].
    + by destruct (drive run s').
Qed.

End Properties.

Section Capture.
Context `{Env : Environment}.

(** ** The job capture *)

Lemma job_unfold self instance rnd args kwargs s capture head original s2 :
  capturing instance s = Some (capture, head, original, s2) →
  job self instance rnd args kwargs s =
  let '(done, s3) := drive (body (func self) instance args kwargs) s2 in
  (match done with
   | Raises e => Raises e
   | Returns _ => job_result rnd kwargs (mjoin (cells s3 !! capture))
   end, setattr_request head original s3).
Proof.
  unfold capturing, job. simpl.
  destruct (getattr_core _ instance) as [c|]; simpl;
    (destruct (getattr_request _ _) as [f|]; [| done]);
    intros [= <- <- <- <-];
    by destruct (drive _ _) as [[v | e] s3].
Qed.

Lemma job_no_request self instance rnd args kwargs s :
  capturing instance s = None →
  job self instance rnd args kwargs s
    = (Raises AttributeError, (new_capture s).2).
Proof.
  unfold capturing, job. simpl.
  destruct (getattr_core _ instance) as [c|]; simpl;
    by destruct (getattr_request _ _) as [f|].
Qed.

Lemma capturing_Some instance s capture head original s2 :
  capturing instance s = Some (capture, head, original, s2) →
  capture = length (cells s) ∧
  head = default instance (getattr_core s instance) ∧
  getattr_request s head = Some original ∧
  objs s2 = alter (λ i, {| core := core i;
                           request := Some (RequestCapture capture) |})
              head (objs s) ∧
  cells s2 = (cells s ++ [None])%list ∧ wire s2 = wire s.
Proof.
  unfold capturing. simpl. unfold getattr_core, getattr_request. simpl.
  destruct (objs s !! default instance (objs s !! instance ≫= core)
              ≫= request) as [f|] eqn:E; [| done].
  by intros [= <- <- <- <-].
Qed.

(** Putting back what the attribute held gives back the instances as they
    were. *)
Lemma restore_objs (l : list Instance) (head : ObjId) (f g : Callable) :
  (l !! head ≫= request) = Some f →
  alter (λ i, {| core := core i; request := Some f |}) head
    (alter (λ i, {| core := core i; request := Some g |}) head l) = l.
Proof.
  intros H. rewrite list_alter_alter_eq.
  rewrite <- (list_alter_id id l head) at 2 by done.
  apply list_alter_ext; [| done].
  intros [c r] Hx. rewrite Hx in H. simpl in H. by subst r.
Qed.

Lemma job_objs self instance rnd args kwargs s :
  objs (job self instance rnd args kwargs s).2 = objs s.
Proof.
  destruct (capturing instance s) as [[[[capture head] original] s2]|] eqn:E.
  - rewrite (job_unfold _ _ _ _ _ _ _ _ _ _ E).
    apply capturing_Some in E as (_ & _ & Hreq & Hobjs & _).
    pose proof (drive_objs (body (func self) instance args kwargs) s2) as Hd.
    destruct (drive _ s2) as [done s3]. simpl in *.
    rewrite Hd, Hobjs. by apply restore_objs.
  - by rewrite (job_no_request _ _ _ _ _ _ E).
Qed.

(** C4. Whatever the captured run does (it returns, it raises, or the
    descriptor cannot be built), when [job] is left the instances are as they
    were before the call: the [request] of the head instance holds the
    original entry point again. So, where this was the transport [t], a call
    made right after [job], through the head or through the instance's
    [core], reaches the transport. *)
Theorem job_restores_request (self : Inner) (instance : ObjId) (rnd : Z)
    (args : list Value) (kwargs : Kwargs) (s : Store) :
  let head := default instance (getattr_core s instance) in
  let s' := (job self instance rnd args kwargs s).2 in
  objs s' = objs s ∧
  getattr_request s' head = getattr_request s head ∧
  (∀ t c, getattr_request s head = Some (Transport t) →
     perform (Request (Itself head) c) s'
       = (transport t (wire s') c, send t c s') ∧
     (getattr_core s instance = Some head →
      perform (Request (CoreOf instance) c) s'
        = (transport t (wire s') c, send t c s'))).
Proof.
  intros head s'.
  assert (Hobjs : objs s' = objs s) by apply job_objs.
  assert (Hreq : ∀ o, getattr_request s' o = getattr_request s o).
  { intros o. unfold getattr_request. by rewrite Hobjs. }
  split; [done |]. split; [done |].
  intros t c Ht. simpl. rewrite Hreq, Ht. simpl. split; [done |].
  intros Hcore. unfold getattr_core in *. rewrite Hobjs, Hcore. simpl.
  by rewrite Hreq, Ht.
Qed.

(** What the capture cell holds at the end of a run is the last call the
    capture object received, if it received any. *)
Lemma drive_captured cell c : ∀ s,
  cell < length (cells s) →
  mjoin (cells (drive c s).2 !! cell) =
  match last (calls_into cell c s) with
  | Some call => Some call
  | None => mjoin (cells s !! cell)
  end.
Proof.
  induction c as [v | e | ev k IH]; intros s Hlt; simpl; try done.
  pose proof (perform_cells_length ev s) as Hlen.
  destruct (perform ev s) as [r s'] eqn:E. simpl in Hlen.
  rewrite IH by lia. clear IH.
  assert (Hcase :
    (received cell ev s = [] ∧ cells s' !! cell = cells s !! cell) ∨
    (∃ call, received cell ev s = [call] ∧
             cells s' !! cell = Some (Some call))).
  { destruct ev as [on call | d]; simpl in *.
    - destruct (resolve s on) as [[t | cell'] |]; simplify_eq/=; auto.
      destruct (decide (cell' = cell)) as [-> | Hne].
      + right. exists call. split; [done |].
        by apply list_lookup_insert_eq.
      + left. split; [done |]. by apply list_lookup_insert_ne.
    - simplify_eq/=. auto. }
  destruct Hcase as [[-> ->] | (call & -> & ->)]; simpl; [done |].
  rewrite last_cons. by destruct (last _).
Qed.

(** When the captured run completes, [job] builds the descriptor from the
    last call that the capture object received, and raises [AttributeError]
    when it received none. *)
Lemma job_completed self instance rnd args kwargs s capture head original
    s2 v s3 :
  capturing instance s = Some (capture, head, original, s2) →
  drive (body (func self) instance args kwargs) s2 = (Returns v, s3) →
  job self instance rnd args kwargs s =
  (match last (calls_into capture
                 (body (func self) instance args kwargs) s2) with
   | Some c => Returns (descriptor rnd kwargs c)
   | None => Raises AttributeError
   end, setattr_request head original s3).
Proof.
  intros Hcap Hrun. rewrite (job_unfold _ _ _ _ _ _ _ _ _ _ Hcap), Hrun.
  f_equal.
  apply capturing_Some in Hcap as (-> & _ & _ & _ & Hcells & _).
  pose proof (drive_captured (length (cells s))
                (body (func self) instance args kwargs) s2) as H.
  rewrite Hrun in H. simpl in H. rewrite H.
  - rewrite Hcells, lookup_app_r, Nat.sub_diag by done. simpl.
    by destruct (last _).
  - rewrite Hcells, length_app. simpl. lia.
Qed.

(** C6, as the code has it. When the captured run completes, [job] builds
    the descriptor from the last call that the capture object received, the
    earlier calls being lost; when it received no call, [job] raises
    [AttributeError] (the capture slot is still [None]), after the
    [request] of the head has been put back. *)
Theorem job_uses_last_call (self : Inner) (instance : ObjId) (rnd : Z)
    (args : list Value) (kwargs : Kwargs) (s : Store)
    capture head original s2 v s3 :
  capturing instance s = Some (capture, head, original, s2) →
  drive (body (func self) instance args kwargs) s2 = (Returns v, s3) →
  let calls :=
    calls_into capture (body (func self) instance args kwargs) s2 in
  job self instance rnd args kwargs s =
  (match last calls with
   | Some c => Returns (descriptor rnd kwargs c)
   | None => Raises AttributeError
   end, setattr_request head original s3) ∧
  getattr_request (setattr_request head original s3) head = Some original.
Proof.
  intros Hcap Hrun calls. split; [by eapply job_completed |].
  pose proof (job_objs self instance rnd args kwargs s) as Hobjs.
  rewrite (job_completed _ _ _ _ _ _ _ _ _ _ _ _ Hcap Hrun) in Hobjs.
  simpl in Hobjs. unfold getattr_request at 1. simpl. rewrite Hobjs.
  by apply capturing_Some in Hcap as (_ & _ & Hreq & _).
Qed.

Lemma job_Returns_inv self instance rnd args kwargs s d s' :
  job self instance rnd args kwargs s = (Returns d, s') →
  ∃ c, job_captured self instance args kwargs s = Some c ∧
       d = descriptor rnd kwargs c.
Proof.
  unfold job_captured.
  destruct (capturing instance s) as [[[[capture head] original] s2]|] eqn:E.
  - rewrite (job_unfold _ _ _ _ _ _ _ _ _ _ E).
    destruct (drive _ s2) as [[v | e] s3]; simpl; [| done].
    destruct (mjoin (cells s3 !! capture)) as [c|]; simpl; [| done].
    intros [= <- <-]. by exists c.
  - rewrite (job_no_request _ _ _ _ _ _ E). done.
Qed.

Lemma lookup_merged (q f j : Dict) (k : string) :
  (j ∪ (f ∪ q)) !! k =
  match j !! k with
  | Some v => Some v
  | None => match f !! k with
            | Some v => Some v
            | None => q !! k
            end
  end.
Proof.
  rewrite !lookup_union.
  by destruct (j !! k), (f !! k), (q !! k).
Qed.

(** C3. [job_on_request] returns, and [job] returns whenever the captured
    run completes and has made a call, a descriptor whose [params] is the
    stripped query group of that call updated with the stripped form group
    and then with the stripped JSON group. So a key of the stripped JSON group
    has the JSON value, whatever the other groups hold; a key that only the
    query and the form group have has the form value; and a key is in a
    stripped group exactly when the group maps it to a value that is not the
    sentinel. The same holds of every descriptor that [job] returns, for the
    call its capture object holds. *)
Theorem merge_precedence (rnd : Z) (kwargs : Kwargs) (c : Call) (k : string) :
  let query := TrimNONE (default ∅ (c_params c)) in
  let form := TrimNONE (default ∅ (c_data c)) in
  let json := TrimNONE (default ∅ (c_json c)) in
  let merged (d : JobDescriptor) : Prop :=
    j_params d = json ∪ (form ∪ query) ∧
    (∀ v, json !! k = Some v → j_params d !! k = Some v) ∧
    (∀ v, json !! k = None → form !! k = Some v → j_params d !! k = Some v) ∧
    (json !! k = None → form !! k = None → j_params d !! k = query !! k) in
  merged (job_on_request rnd c) ∧
  (∀ self instance args s capture head original s2 v s3,
     capturing instance s = Some (capture, head, original, s2) →
     drive (body (func self) instance args kwargs) s2 = (Returns v, s3) →
     last (calls_into capture (body (func self) instance args kwargs) s2)
       = Some c →
     ∃ d, (job self instance rnd args kwargs s).1 = Returns d ∧ merged d) ∧
  (∀ d self instance args s s',
     job self instance rnd args kwargs s = (Returns d, s') →
     job_captured self instance args kwargs s = Some c →
     merged d) ∧
  (∀ (g : Dict) v, TrimNONE g !! k = Some v ↔ g !! k = Some v ∧ v ≠ VUnset).
Proof.
  intros query form json merged.
  assert (Hmerged : ∀ d, j_params d = json ∪ (form ∪ query) → merged d).
  { intros d Hp. split; [done |]. rewrite Hp, lookup_merged.
    split; [by intros v -> |]. split; [by intros v -> -> |].
    by intros -> ->. }
  split; [by apply Hmerged |]. split; [| split].
  - intros self instance args s capture head original s2 v s3 Hcap Hrun Hlast.
    rewrite (job_completed _ _ _ _ _ _ _ _ _ _ _ _ Hcap Hrun), Hlast.
    eexists. split; [done |]. by apply Hmerged.
  - intros d self instance args s s' Hjob Hc. apply Hmerged.
    apply job_Returns_inv in Hjob as (c' & Hc' & ->).
    rewrite Hc in Hc'. by injection Hc' as <-.
  - intros g v. apply lookup_TrimNONE.
Qed.

(** C9. A mapping that holds no sentinel is not changed by the stripping,
    and merged with itself, as the query, the form and the JSON group of one
    call, it gives itself: in [job_on_request], in the descriptor of [job],
    and for a single [update]. What the stripping returns is such a
    mapping. *)
Theorem merge_idempotent (m : Dict) (rnd : Z) (kwargs : Kwargs) (c : Call) :
  stripped m →
  c_params c = Some m → c_data c = Some m → c_json c = Some m →
  j_params (job_on_request rnd c) = m ∧
  job_result rnd kwargs (Some c)
    = Returns (descriptor rnd kwargs c) ∧
  j_params (descriptor rnd kwargs c) = m ∧
  TrimNONE m ∪ TrimNONE m = m ∧
  stripped (TrimNONE m).
Proof.
  intros Hm Hq Hf Hj.
  assert (Hmerged : merged_params c = m).
  { unfold merged_params. rewrite Hq, Hf, Hj. simpl.
    rewrite (TrimNONE_id m Hm). by rewrite !(idemp (∪) m). }
  repeat split; try done.
  - rewrite (TrimNONE_id m Hm). by rewrite (idemp (∪) m).
  - apply TrimNONE_stripped.
Qed.

End Capture.

(** ** Counting the pairs of draws that collide *)

Section Diagonal.
Context {A : Type} `{EqDecision A}.




End Diagonal.



(** ** The recording stub and the Antipublic bodies *)

Section Antipublic.
Context `{Env : Environment}.

Lemma bind_positional_length sig : ∀ args vs rest,
  bind_positional sig args = Some (vs, rest) →
  length vs + length rest = length sig.
Proof.
  induction sig as [| p sig IH]; intros [| a args] vs rest; simpl;
    try (intros [= <- <-]; done); try done.
  destruct (bind_positional sig args) as [[vs' rest'] |] eqn:E; [| done].
  intros [= <- <-]. simpl. by rewrite (IH _ _ _ E).
Qed.

Lemma bind_positional_names sig : ∀ args vs rest,
  bind_positional sig args = Some (vs, rest) → rest ⊆ sig.
Proof.
  induction sig as [| p sig IH]; intros [| a args] vs rest; simpl;
    try (intros [= <- <-]; done); try done.
  destruct (bind_positional sig args) as [[vs' rest'] |] eqn:E; [| done].
  intros [= <- <-]. intros x Hx. right. by apply (IH _ _ _ E).
Qed.

Lemma bind_keywords_length rest kwargs : ∀ vs,
  bind_keywords rest kwargs = Some vs → length vs = length rest.
Proof.
  induction rest as [| p rest IH]; intros vs; simpl; [by intros [= <-] |].
  destruct (from_option Some (p_default p) (kwargs !! p_name p)); [| done].
  destruct (bind_keywords rest kwargs) as [vs' |]; [| done].
  intros [= <-]. simpl. by rewrite (IH vs').
Qed.

Lemma bind_arguments_length sig args kwargs locals :
  bind_arguments sig args kwargs = Some locals → length locals = length sig.
Proof.
  unfold bind_arguments.
  destruct (bind_positional sig args) as [[vs rest] |] eqn:E; [| done].
  case_bool_decide; [| done].
  destruct (bind_keywords rest kwargs) as [ws |] eqn:E'; [| done].
  intros [= <-]. rewrite length_app, (bind_keywords_length _ _ _ E').
  by apply bind_positional_length in E.
Qed.

(** A call binds only when every keyword names a parameter. *)
Lemma bind_arguments_keywords sig args kwargs locals k :
  bind_arguments sig args kwargs = Some locals →
  is_Some (kwargs !! k) → k ∈ p_name <$> sig.
Proof.
  unfold bind_arguments.
  destruct (bind_positional sig args) as [[vs rest] |] eqn:E; [| done].
  case_bool_decide as Hsub; [| done]. intros _ Hk.
  apply elem_of_dom in Hk. apply Hsub in Hk.
  apply elem_of_list_to_set, list_elem_of_fmap in Hk as (p & -> & Hp).
  apply list_elem_of_fmap. exists p. split; [done |].
  by apply (bind_positional_names _ _ _ _ E).
Qed.

Ltac with_locals Hbind :=
  let Hlen := fresh "Hlen" in
  pose proof (bind_arguments_length _ _ _ _ Hbind) as Hlen;
  unfold UNIVERSAL, func, body, async_def;
  rewrite Hbind;
  repeat (match goal with
          | H : length ?l = _ |- _ =>
              is_var l; destruct l; simpl in H; try discriminate H
          | H : S _ = S _ |- _ => apply Nat.succ_inj in H
          end).

(** C7. Called, the capture object sends nothing to the network: it stores
    the call (method, endpoint and keywords) in its slot and returns [None].
    Every endpoint operation of the Antipublic client, driven with arguments
    that bind to its signature, on an instance whose [core] has the capture
    object as [request], completes returning that [None]: the run makes one
    call, which is stored, and the store is otherwise unchanged, so nothing
    reaches the network. The signatures have no parameter [job_id], so such
    arguments supply none. *)
Theorem capture_stub_is_silent :
  (∀ cell c s,
     call_request (RequestCapture cell) c s
       = (Returns VNone, set_captured cell c s) ∧
     wire (set_captured cell c s) = wire s ∧
     (cell < length (cells s) →
      cells (set_captured cell c s) !! cell = Some (Some c))) ∧
  Forall (λ e : list Param * Inner,
    ∀ self head cell args kwargs locals s,
      getattr_core s self = Some head →
      getattr_request s head = Some (RequestCapture cell) →
      bind_arguments e.1 args kwargs = Some locals →
      kwargs !! "job_id" = None ∧
      ∃ c, drive (body (func e.2) self args kwargs) s
             = (Returns VNone, set_captured cell c s))
    Antipublic_endpoints.
Proof.
  split.
  - intros cell c s. repeat split. simpl. apply list_lookup_insert_eq.
  - unfold Antipublic_endpoints.
    repeat (apply Forall_cons_2; [
      simpl; intros self head cell args kwargs locals s Hcore Hreq Hbind;
      (split;
       [ destruct (kwargs !! "job_id") as [v|] eqn:Hid; [| done];
         assert (Hin : "job_id" ∈ p_name <$> _)
           by (eapply bind_arguments_keywords; [exact Hbind | by rewrite Hid]);
         exfalso; revert Hin; apply (bool_decide_unpack (¬ _)); exact I
       | with_locals Hbind;
         try match goal with |- context [truthy ?v] => destruct (truthy v) end;
         simpl; rewrite Hcore; simpl; rewrite Hreq; simpl;
         eexists; reflexivity ]) |]).
    apply Forall_nil_2.
Qed.

(** C10. The seven endpoint operations, [info.lines], [info.version],
    [account.access], [account.queries], [check], [search] and [passwords],
    are declared with [UNIVERSAL()] at its default, where [batchable] is
    false: resolved on whatever instance, none of them has the attribute
    [job], and looking it up raises [AttributeError]. *)
Theorem Antipublic_operations_not_batchable :
  qualname ∘ func <$> Antipublic_operations
    = ["Antipublic.__Info.lines"; "Antipublic.__Info.version";
       "Antipublic.__Account.access"; "Antipublic.__Account.queries";
       "Antipublic.check"; "Antipublic.search"; "Antipublic.passwords"] ∧
  Forall (λ op,
    (∃ f, op = UNIVERSAL None f) ∧
    batchable op = false ∧
    ∀ instance, getattr_job (Inner_get op (Some instance))
                  = Raises AttributeError)
    Antipublic_operations.
Proof.
  split; [done |]. unfold Antipublic_operations, Antipublic_endpoints.
  simpl. repeat (apply Forall_cons_2; [by split; [eexists |] |]).
  apply Forall_nil_2.
Qed.

End Antipublic.

(** ** The id of a descriptor *)

Section Identifiers.
Context `{Env : Environment}.




End Identifiers.

(** ** RETRY *)

Section Retry.
Context `{Env : Environment}.

Lemma retry_loop_rounds attempt k s sk :
  transient_rounds attempt k s sk →
  ∀ n, (k ≤ n)%nat → k = n ∨ settles attempt sk →
  drive (retry_loop n attempt) s = drive attempt sk.
Proof.
  induction 1 as [s | k s e s1 sk Hrun He _ IH]; intros n Hle Hend.
  - destruct n as [| n]; [done |].
    destruct Hend as [? | Hend]; [done |].
    simpl. rewrite drive_try_except.
    specialize (Hend) as Hs. unfold settles in Hs.
    destruct (drive attempt s) as [[v | e] s'] eqn:E; [done |].
    simpl in Hs. by rewrite (Hs e eq_refl).
  - destruct n as [| n]; [lia |].
    simpl. rewrite drive_try_except, Hrun, He. simpl.
    apply IH; [lia |]. destruct Hend as [? | ?]; [left; lia | by right].
Qed.

Lemma retry_loop_total attempt n : ∀ s,
  ∃ k sk, transient_rounds attempt k s sk ∧ (k ≤ n)%nat ∧
          (k = n ∨ settles attempt sk).
Proof.
  induction n as [| n IH]; intros s.
  - exists 0, s. repeat split; [constructor | lia | by left].
  - destruct (drive attempt s) as [[v | e] s1] eqn:E.
    + exists 0, s. repeat split; [constructor | lia |].
      right. intros e. by rewrite E.
    + destruct (is_transient e) eqn:He.
      * destruct (IH (pause (1 # 2) s1)) as (k & sk & Hr & Hle & Hend).
        exists (S k), sk. repeat split; [by econstructor | lia |].
        destruct Hend as [-> | ?]; [by left | by right].
      * exists 0, s. repeat split; [constructor | lia |].
        right. intros e'. rewrite E. simpl. by intros [= <-].
Qed.

(** C8. [RETRY(count)] (by default 10) guards [count] attempts. Whenever
    [k ≤ count] attempts in a row fail with a transient fault, each followed
    by a pause of 0.5 seconds, and either the next attempt does not end in a
    transient fault, or these were all the guarded attempts, the wrapper ends
    as the attempt number [k + 1] ends, value or exception: an exception that
    is not transient leaves at once, with no pause and no further attempt, and
    what the attempt after [count] transient faults does is handed on as it
    is. Every run of the wrapper is of this form. The transient faults are
    the instances of [TimeoutException], [ConnectTimeout], [ReadTimeout] and
    [NetworkError]. *)
Theorem RETRY_attempts (count : option Z) (func : AsyncFunc)
    (args : list Value) (kwargs : Kwargs) :
  let n := Z.to_nat (default 10%Z count) in
  let attempt := func args kwargs in
  (∀ k s sk,
     transient_rounds attempt k s sk →
     (k ≤ n)%nat → k = n ∨ settles attempt sk →
     drive (RETRY count func args kwargs) s = drive attempt sk) ∧
  (∀ s, ∃ k sk,
     transient_rounds attempt k s sk ∧ (k ≤ n)%nat ∧
     (k = n ∨ settles attempt sk) ∧
     drive (RETRY count func args kwargs) s = drive attempt sk) ∧
  RETRY None func = RETRY (Some 10%Z) func ∧
  (∀ e, is_transient e = true ↔
        issubclass e TimeoutException = true ∨
        issubclass e NetworkError = true) ∧
  Forall (λ e, is_transient e = true)
    [TimeoutException; ConnectTimeout; ReadTimeout; NetworkError].
Proof.
  intros n attempt.
  assert (Hmain : ∀ k s sk,
     transient_rounds attempt k s sk →
     (k ≤ n)%nat → k = n ∨ settles attempt sk →
     drive (RETRY count func args kwargs) s = drive attempt sk).
  { intros k s sk Hr Hle Hend. by apply (retry_loop_rounds attempt k s sk). }
  split; [done |]. split; [| split; [done | split]].
  - intros s.
    destruct (retry_loop_total attempt n s) as (k & sk & Hr & Hle & Hend).
    exists k, sk. eauto using Hmain.
  - intros e. by destruct e; vm_compute; intuition.
  - by repeat constructor.
Qed.

End Retry.

(** ** The job of [check] *)

Section CheckJob.
Context `{Env : Environment}.

(** A body that awaits one call of [self.core.request] and returns what the
    call returns: [job] returns the descriptor of that call. *)
Lemma job_awaits_one_call self instance rnd args kwargs s head original c :
  body (func self) instance args kwargs = await (Request (CoreOf instance) c) →
  getattr_core s instance = Some head →
  getattr_request s head = Some original →
  (job self instance rnd args kwargs s).1 = Returns (descriptor rnd kwargs c).
Proof.
  intros Hbody Hcore Hreq.
  destruct (capturing instance s) as [[[[capture h] o] s2]|] eqn:E.
  2:{ unfold capturing in E. simpl in E.
      unfold getattr_core, getattr_request in *. simpl in E.
      rewrite Hcore in E. simpl in E. by rewrite Hreq in E. }
  pose proof E as E'.
  apply capturing_Some in E' as (-> & -> & Ho & Hobjs & Hcells & _).
  rewrite Hcore in *. simpl in *.
  assert (Hstub : resolve s2 (CoreOf instance)
                  = Some (RequestCapture (length (cells s)))).
  { unfold resolve, getattr_core, getattr_request in *. rewrite Hobjs.
    assert (alter (λ i, {| core := core i;
                           request := Some (RequestCapture (length (cells s))) |})
              head (objs s) !! instance ≫= core = Some head) as ->.
    { destruct (decide (head = instance)) as [-> | Hne];
        [rewrite list_lookup_alter_eq | by rewrite list_lookup_alter_ne].
      by destruct (objs s !! instance). }
    simpl. rewrite list_lookup_alter_eq. by destruct (objs s !! head). }
  set (run := body (func self) instance args kwargs) in *.
  assert (Hrun : drive run s2
            = (Returns VNone, set_captured (length (cells s)) c s2)).
  { rewrite Hbody. simpl in Hstub |- *. by rewrite Hstub. }
  rewrite (job_completed _ _ _ _ _ _ _ _ _ _ _ _ E Hrun).
  fold run. rewrite Hbody. simpl in Hstub |- *. rewrite Hstub. simpl.
  by rewrite decide_True.
Qed.

(** C2, as the code has it. [check] is declared with [UNIVERSAL()], so the
    wrapper bound to the client has no attribute [job], and the expression
    [check.job] raises [AttributeError]. Were the same body declared
    batchable, on an instance whose [core] has a [request], the call
    [job(lines=["a:b", "c:d"], insert=True)] would return the descriptor with
    method POST, uri /checkLines, these two parameters, and as id the decimal
    rendering of the random draw. *)
Theorem check_job (instance head : ObjId) (original : Callable) (rnd : Z)
    (s : Store) :
  let kwargs : Kwargs :=
    <["lines" := VList [VStr "a:b"; VStr "c:d"]]>
      (<["insert" := VBool true]> ∅) in
  UNIVERSAL None check ∈ Antipublic_operations ∧
  getattr_job (Inner_get (UNIVERSAL None check) (Some instance))
    = Raises AttributeError ∧
  getattr_job (Inner_get (UNIVERSAL (Some true) check) (Some instance))
    = Returns Job ∧
  (getattr_core s instance = Some head →
   getattr_request s head = Some original →
   (job (UNIVERSAL (Some true) check) instance rnd [] kwargs s).1
     = Returns {| j_id := pretty rnd;
                  j_method := "POST";
                  j_uri := "/checkLines";
                  j_params := kwargs |}).
Proof.
  intros kwargs. split; [| split; [done | split; [done |]]].
  - unfold Antipublic_operations, Antipublic_endpoints. simpl.
    do 4 right. by left.
  - intros Hcore Hreq.
    erewrite job_awaits_one_call; [| reflexivity | exact Hcore | exact Hreq].
    reflexivity.
Qed.

End CheckJob.

(** * Concrete runs *)

Lemma wrapper_dual_mode_witness :
  let Env := flaky 0 in
  let op := UNIVERSAL None check in
  (wrapper op 0 [] check_kwargs Idle client_store).1
    = (Returns (Materialized (VStr "ok")), Idle) ∧
  (wrapper op 0 [] check_kwargs Closed client_store).1.1
    = Raises RuntimeError ∧
  ∃ c, wrapper op 0 [] check_kwargs Running client_store
         = (Returns (Awaitable c), Running, client_store) ∧
       (drive c client_store).1 = Returns (VStr "ok").
Proof.
  intros Env op.
  destruct (wrapper_dual_mode op 0 [] check_kwargs client_store)
    as (_ & Hidle & Hclosed & _ & c & Hrun & _).
  split; [| split].
  - rewrite Hidle. reflexivity.
  - by rewrite Hclosed.
  - exists c. split; [exact Hrun |]. by injection Hrun as <-.
Defined.

(** C1, as the spec states it, fails: the current loop of the thread is
    closed, so no loop is running, and the call of [check] on the client
    raises [RuntimeError]; the body is not run and nothing is sent. *)
Lemma wrapper_on_closed_loop :
  let Env := flaky 0 in
  is_running Closed = false ∧
  wrapper (UNIVERSAL None check) 0 [] check_kwargs Closed client_store
    = (Raises RuntimeError, Closed, client_store).
Proof. split; reflexivity. Qed.

(** C2, as the spec states it, fails: on the client (object 0) the lookup of
    [job] on [check] raises [AttributeError]; and were [job] reached with
    these keywords, [job_id] would go to the body of [check], whose signature
    has no such parameter, and [job] would raise [TypeError]. *)
Lemma check_job_is_not_exposed :
  let Env := flaky 0 in
  getattr_job (Inner_get (UNIVERSAL None check) (Some 0))
    = Raises AttributeError ∧
  (job (UNIVERSAL (Some true) check) 0 1 []
     (<["job_id" := VStr "7"]> check_kwargs) client_store).1
    = Raises TypeError.
Proof. split; reflexivity. Qed.

Lemma check_job_witness :
  let Env := flaky 0 in
  (job (UNIVERSAL (Some true) check) 0 7 [] check_kwargs client_store).1
    = Returns {| j_id := "7"; j_method := "POST"; j_uri := "/checkLines";
                 j_params := check_kwargs |}.
Proof.
  intros Env.
  destruct (check_job 0 0 (Transport 0) 7 client_store) as (_ & _ & _ & H).
  apply H; reflexivity.
Defined.

Lemma merge_precedence_witness :
  let Env := flaky 0 in
  let done := job (UNIVERSAL (Some true) sends_overlapping) 0 1 [] ∅
                client_store in
  (∃ d, done.1 = Returns d ∧ j_params d !! "k" = Some (VInt 3)) ∧
  (∃ d, done.1 = Returns d ∧ j_params d !! "q" = Some (VInt 2)) ∧
  (∃ d, done.1 = Returns d ∧ j_params d !! "u" = Some (VInt 1)) ∧
  j_params (job_on_request 1 overlapping) !! "k" = Some (VInt 3).
Proof.
  intros Env done.
  destruct (merge_precedence 1 ∅ overlapping "k") as ((_ & Hk & _) & Hjk & _).
  destruct (merge_precedence 1 ∅ overlapping "q") as (_ & Hjq & _).
  destruct (merge_precedence 1 ∅ overlapping "u") as (_ & Hju & _).
  destruct (Hjk (UNIVERSAL (Some true) sends_overlapping) 0 [] client_store
              _ _ _ _ _ _ eq_refl eq_refl eq_refl) as (d1 & H1 & _ & H1k & _).
  destruct (Hjq (UNIVERSAL (Some true) sends_overlapping) 0 [] client_store
              _ _ _ _ _ _ eq_refl eq_refl eq_refl) as (d2 & H2 & _ & _ & H2q & _).
  destruct (Hju (UNIVERSAL (Some true) sends_overlapping) 0 [] client_store
              _ _ _ _ _ _ eq_refl eq_refl eq_refl)
    as (d3 & H3 & _ & _ & _ & H3u).
  split; [exists d1; split; [exact H1 | by apply H1k] |].
  split; [exists d2; split; [exact H2 | by apply H2q] |].
  split; [exists d3; split; [exact H3 | rewrite H3u; reflexivity] |].
  by apply Hk.
Defined.

Lemma job_restores_request_witness :
  let Env := flaky 0 in
  let done := job (UNIVERSAL (Some true) failing) 0 1 [] ∅ client_store in
  done.1 = Raises ValueError ∧
  getattr_request done.2 0 = Some (Transport 0) ∧
  wire done.2 = [] ∧
  wire (perform (Request (CoreOf 1) (call "GET" "/version")) done.2).2
    = [(0, call "GET" "/version")].
Proof.
  intros Env done.
  destruct (job_restores_request (UNIVERSAL (Some true) failing) 0 1 [] ∅
              client_store) as (_ & Hreq & _).
  split; [reflexivity |]. split; [exact Hreq |]. split; reflexivity.
Defined.

(** C6, as the spec states it, fails: the body completes without a transport
    call, and [job] raises [AttributeError]. *)
Lemma job_without_call_raises :
  let Env := flaky 0 in
  (drive (body no_call 0 [] ∅) client_store).1 = Returns VNone ∧
  (job (UNIVERSAL (Some true) no_call) 0 1 [] ∅ client_store).1
    = Raises AttributeError.
Proof. split; reflexivity. Qed.

Lemma job_uses_last_call_witness :
  let Env := flaky 0 in
  (job (UNIVERSAL (Some true) two_calls) 0 9 [] ∅ client_store).1
    = Returns {| j_id := "9"; j_method := "POST"; j_uri := "/second";
                 j_params := ∅ |}.
Proof.
  intros Env.
  edestruct (job_uses_last_call (UNIVERSAL (Some true) two_calls) 0 9 [] ∅
               client_store) as [H _]; [reflexivity | reflexivity |].
  rewrite H. reflexivity.
Defined.

Lemma merge_idempotent_witness :
  let Env := flaky 0 in
  let m : Dict := <["a" := VInt 1]> (<["b" := VStr "x"]> ∅) in
  let c := {| c_method := "POST"; c_endpoint := "/x"; c_params := Some m;
              c_data := Some m; c_json := Some m; c_rest := ∅ |} in
  j_params (job_on_request 1 c) = m.
Proof.
  intros Env m c.
  refine (proj1 (merge_idempotent m 1 ∅ c _ eq_refl eq_refl eq_refl)).
  apply (bool_decide_unpack _). vm_compute. exact I.
Defined.

(** Two transient faults, then an answer: three attempts and two pauses of
    half a second. *)
Lemma RETRY_attempts_witness :
  let Env := flaky 2 in
  let func : AsyncFunc := λ _ _, await (Request (Itself 0) (call "GET" "/version")) in
  let done := drive (RETRY None func [] ∅) client_store in
  done.1 = Returns (VStr "ok") ∧
  length (wire done.2) = 3 ∧
  slept done.2 = [1 # 2; 1 # 2]%Q.
Proof.
  intros Env func done.
  destruct (RETRY_attempts None func [] ∅) as (H & _).
  eassert (Hr : transient_rounds (func [] ∅) 2 client_store _).
  { eapply rounds_S; [reflexivity | reflexivity |].
    eapply rounds_S; [reflexivity | reflexivity |].
    apply rounds_O. }
  unfold done. rewrite (H 2 _ _ Hr).
  - split; [reflexivity | split; reflexivity].
  - simpl. lia.
  - right. intros e. by vm_compute.
Defined.

(** With one guarded attempt, the second attempt is the last one: its
    transient fault is handed on. *)
Example RETRY_exhausted :
  let Env := flaky 5 in
  let func : AsyncFunc := λ _ _, await (Request (Itself 0) (call "GET" "/version")) in
  let done := drive (RETRY (Some 1%Z) func [] ∅) client_store in
  done.1 = Raises ReadTimeout ∧
  length (wire done.2) = 2 ∧
  slept done.2 = [1 # 2]%Q.
Proof. repeat split. Qed.

(** An exception that is not transient leaves at the first attempt. *)
Example RETRY_other_exception :
  let Env := flaky 0 in
  let func : AsyncFunc := λ _ _, body failing 0 [] ∅ in
  let done := drive (RETRY None func [] ∅) client_store in
  done.1 = Raises ValueError ∧
  length (wire done.2) = 1 ∧
  slept done.2 = [].
Proof. repeat split. Qed.



Lemma capture_stub_is_silent_witness :
  let Env := flaky 0 in
  let done := drive (body check 0 [] check_kwargs) capture_store in
  done.1 = Returns VNone ∧
  wire done.2 = [] ∧
  cells done.2 =
    [Some {| c_method := "POST"; c_endpoint := "/checkLines";
             c_params := None; c_data := None;
             c_json := Some check_kwargs; c_rest := ∅ |}].
Proof.
  intros Env done.
  destruct capture_stub_is_silent as (_ & H).
  destruct (Forall_lookup_1 _ _ 4 _ H eq_refl 0 0 0 [] check_kwargs
              [VList [VStr "a:b"; VStr "c:d"]; VBool true] capture_store
              eq_refl eq_refl eq_refl) as (_ & c & Hc).
  change (done = (Returns VNone, set_captured 0 c capture_store)) in Hc.
  split; [by rewrite Hc | split; [by rewrite Hc | reflexivity]].
Defined.

Lemma Antipublic_operations_not_batchable_witness :
  let Env := flaky 0 in
  getattr_job (Inner_get (UNIVERSAL None lines) (Some 1))
    = Raises AttributeError ∧
  getattr_job (Inner_get (UNIVERSAL None passwords) (Some 0))
    = Raises AttributeError.
Proof.
  intros Env.
  destruct Antipublic_operations_not_batchable as (_ & H).
  split.
  - exact (proj2 (proj2 (Forall_lookup_1 _ _ 0 _ H eq_refl)) 1).
  - exact (proj2 (proj2 (Forall_lookup_1 _ _ 6 _ H eq_refl)) 0).
Defined.

(** * Further properties *)

(** ** A job computed from the body alone *)

Section Offline.
Context `{Env : Environment}.

Lemma resolve_receiver s on :
  resolve s on = receiver (objs s) on ≫= getattr_request s.
Proof. by destruct on. Qed.

Lemma receiver_alter (f : Callable) h l on :
  receiver (alter (λ i, {| core := core i; request := Some f |}) h l) on
    = receiver l on.
Proof.
  destruct on as [o | o]; simpl; [| done].
  destruct (decide (h = o)) as [-> | Hne].
  - rewrite list_lookup_alter_eq. by destruct (l !! o).
  - by rewrite list_lookup_alter_ne.
Qed.

Lemma stub_run_alter (f : Callable) h l head c :
  stub_run (alter (λ i, {| core := core i; request := Some f |}) h l) head c
    = stub_run l head c.
Proof.
  induction c as [v | e | [on call | d] k IH]; simpl; try done.
  rewrite receiver_alter. case_decide; [| done]. by rewrite IH.
Qed.

Lemma capturing_intro instance s original :
  getattr_request s (default instance (getattr_core s instance))
    = Some original →
  capturing instance s =
  Some (length (cells s), default instance (getattr_core s instance), original,
        setattr_request (default instance (getattr_core s instance))
          (RequestCapture (length (cells s))) (new_capture s).2).
Proof.
  intros H. unfold capturing. simpl.
  unfold getattr_core, getattr_request in *. simpl. by rewrite H.
Qed.

(** Inside a capture the run is the one [stub_run] computes: nothing is
    sent, and the capture object receives the calls of the body. *)
Lemma stub_run_drive head cell c : ∀ s run,
  getattr_request s head = Some (RequestCapture cell) →
  stub_run (objs s) head c = Some run →
  (drive c s).1 = run.1 ∧ calls_into cell c s = run.2 ∧
  wire (drive c s).2 = wire s.
Proof.
  induction c as [v | e | [on call | d] k IH]; intros s run Hreq; simpl.
  - by intros [= <-].
  - by intros [= <-].
  - case_decide as Hrecv; [| done].
    destruct (stub_run (objs s) head (k (Returns VNone)))
      as [[r calls] |] eqn:E; [| done].
    intros [= <-]. rewrite resolve_receiver, Hrecv. simpl. rewrite Hreq.
    simpl. rewrite decide_True by done.
    destruct (IH (Returns VNone) (set_captured cell call s) (r, calls))
      as (H1 & H2 & H3); [done | done |].
    simpl in *. by rewrite H1, H2, H3.
  - intros Hrun.
    destruct (IH (Returns VNone) (pause d s) run) as (H1 & H2 & H3);
      [done | done |].
    by rewrite H1, H2, H3.
Qed.

(** The result of [job] for a body whose transport calls all go to the
    head instance. *)
Lemma job_offline (self : Inner) (instance : ObjId) (rnd : Z)
    (args : list Value) (kwargs : Kwargs) (s : Store)
    (original : Callable) (run : Outcome Value * list Call) :
  let head := default instance (getattr_core s instance) in
  getattr_request s head = Some original →
  stub_run (objs s) head (body (func self) instance args kwargs) = Some run →
  let done := job self instance rnd args kwargs s in
  done.1 = job_outcome rnd kwargs run ∧
  wire done.2 = wire s ∧
  objs done.2 = objs s.
Proof.
  intros head Hreq Hrun done. subst done.
  split; [| split; [| apply job_objs]].
  - pose proof (capturing_intro instance s original Hreq) as Hcap.
    fold head in Hcap.
    set (s2 := setattr_request head (RequestCapture (length (cells s)))
                 (new_capture s).2) in *.
    assert (Hstub : getattr_request s2 head
                    = Some (RequestCapture (length (cells s)))).
    { unfold s2, getattr_request, setattr_request in *. simpl.
      rewrite list_lookup_alter_eq. by destruct (objs s !! head). }
    assert (Hrun2 : stub_run (objs s2) head
                      (body (func self) instance args kwargs) = Some run).
    { unfold s2. simpl. by rewrite stub_run_alter. }
    destruct (stub_run_drive head _ _ s2 run Hstub Hrun2) as (H1 & H2 & _).
    destruct (drive (body (func self) instance args kwargs) s2)
      as [r s3] eqn:E.
    simpl in H1. subst r. unfold job_outcome.
    destruct run as [[v | e] calls]; simpl in *.
    + rewrite (job_completed _ _ _ _ _ _ _ _ _ _ _ _ Hcap E). simpl.
      by rewrite H2.
    + by rewrite (job_unfold _ _ _ _ _ _ _ _ _ _ Hcap), E.
  - pose proof (capturing_intro instance s original Hreq) as Hcap.
    fold head in Hcap.
    set (s2 := setattr_request head (RequestCapture (length (cells s)))
                 (new_capture s).2) in *.
    assert (Hstub : getattr_request s2 head
                    = Some (RequestCapture (length (cells s)))).
    { unfold s2, getattr_request, setattr_request in *. simpl.
      rewrite list_lookup_alter_eq. by destruct (objs s !! head). }
    assert (Hrun2 : stub_run (objs s2) head
                      (body (func self) instance args kwargs) = Some run).
    { unfold s2. simpl. by rewrite stub_run_alter. }
    destruct (stub_run_drive head _ _ s2 run Hstub Hrun2) as (_ & _ & H3).
    rewrite (job_unfold _ _ _ _ _ _ _ _ _ _ Hcap).
    destruct (drive (body (func self) instance args kwargs) s2)
      as [r s3] eqn:E.
    simpl in *. by rewrite H3.
Qed.


(** X1. When every transport call of the body goes to the head instance,
    [job] depends on the store only through the instances: its result is the
    one computed from the body alone with every call answered [None] (the
    exception of the body, else the descriptor of its last call, else
    [AttributeError]); nothing is sent to the network, and the instances are
    as before. *)
Theorem job_runs_offline (self : Inner) (instance : ObjId) (rnd : Z)
    (args : list Value) (kwargs : Kwargs) (s : Store)
    (original : Callable) (run : Outcome Value * list Call) :
  let head := default instance (getattr_core s instance) in
  getattr_request s head = Some original →
  stub_run (objs s) head (body (func self) instance args kwargs) = Some run →
  let done := job self instance rnd args kwargs s in
  done.1 = job_outcome rnd kwargs run ∧
  wire done.2 = wire s ∧
  objs done.2 = objs s.
Proof. apply job_offline. Qed.

End Offline.

(** ** Jobs in a row, and what a capture does not intercept *)

Section Capture_edges.
Context `{Env : Environment}.


(** X3. The capture object stands in for the [request] of the head instance
    only. A body that awaits the [request] of an instance that is not the
    head, and holds a transport of its own, is not captured: the call is sent
    to the network, and [job] raises, [AttributeError] when the transport
    answers (nothing was captured), else the exception of the transport. *)
Theorem job_intercepts_only_head (self : Inner) (instance head : ObjId)
    (rnd : Z) (args : list Value) (kwargs : Kwargs) (s : Store)
    (original : Callable) (t : nat) (c : Call) :
  getattr_core s instance = Some head →
  head ≠ instance →
  getattr_request s head = Some original →
  getattr_request s instance = Some (Transport t) →
  body (func self) instance args kwargs = await (Request (Itself instance) c) →
  let done := job self instance rnd args kwargs s in
  done.1 = match transport t (wire s) c with
           | Returns _ => Raises AttributeError
           | Raises e => Raises e
           end ∧
  wire done.2 = (wire s ++ [(t, c)])%list ∧
  getattr_request done.2 head = Some original.
Proof.
  intros Hcore Hne Hreq Hown Hbody done. subst done.
  assert (Hhead : default instance (getattr_core s instance) = head)
    by by rewrite Hcore.
  pose proof (capturing_intro instance s original) as Hcap.
  rewrite Hhead in Hcap. specialize (Hcap Hreq).
  set (s2 := setattr_request head (RequestCapture (length (cells s)))
               (new_capture s).2) in *.
  assert (Hdrive : drive (await (Request (Itself instance) c)) s2
                   = drive (pass (transport t (wire s) c)) (send t c s2)).
  { assert (Hown2 : resolve s2 (Itself instance) = Some (Transport t)).
    { unfold s2, resolve, getattr_request, setattr_request in *. simpl.
      by rewrite list_lookup_alter_ne. }
    unfold await. cbn [drive perform]. by rewrite Hown2. }
  rewrite (job_unfold _ _ _ _ _ _ _ _ _ _ Hcap), Hbody, Hdrive.
  assert (Hback : getattr_request (setattr_request head original (send t c s2))
                    head = Some original).
  { unfold getattr_request in *. simpl. by rewrite restore_objs. }
  destruct (transport t (wire s) c) as [v | e]; simpl.
  - rewrite lookup_app_r, Nat.sub_diag by done. by simpl.
  - done.
Qed.

(** X4. When the head instance has no [request], [job] raises
    [AttributeError] before the body is run: nothing is sent, nothing
    sleeps, and the instances are untouched. *)
Theorem job_without_request (self : Inner) (instance : ObjId) (rnd : Z)
    (args : list Value) (kwargs : Kwargs) (s : Store) :
  getattr_request s (default instance (getattr_core s instance)) = None →
  let done := job self instance rnd args kwargs s in
  done.1 = Raises AttributeError ∧
  wire done.2 = wire s ∧ slept done.2 = slept s ∧ objs done.2 = objs s.
Proof.
  intros H done. subst done.
  assert (Hcap : capturing instance s = None).
  { unfold capturing. simpl. unfold getattr_core, getattr_request in *.
    simpl. by rewrite H. }
  by rewrite (job_no_request _ _ _ _ _ _ Hcap).
Qed.

End Capture_edges.

(** ** Descriptors *)

Section Descriptors.
Context `{Env : Environment}.

Lemma descriptor_of_call (rnd : Z) (kwargs : Kwargs) (c : Call)
    (d : JobDescriptor) :
  (d = job_on_request rnd c ∨
   ∃ self instance args s s',
     job self instance rnd args kwargs s = (Returns d, s') ∧
     job_captured self instance args kwargs s = Some c) →
  j_method d = c_method c ∧ j_uri d = c_endpoint c ∧
  j_params d = merged_params c ∧
  (d = job_on_request rnd c ∨ d = descriptor rnd kwargs c).
Proof.
  intros [-> | (self & instance & args & s & s' & Hjob & Hc)].
  - repeat split; by left.
  - apply job_Returns_inv in Hjob as (c' & Hc' & ->).
    rewrite Hc in Hc'. injection Hc' as <-. repeat split; by right.
Qed.

Lemma merged_params_lookup (c : Call) (k : string) (v : Value) :
  merged_params c !! k = Some v →
  v ≠ VUnset ∧
  ∃ g, g ∈ [c_json c; c_data c; c_params c] ∧ default ∅ g !! k = Some v.
Proof.
  unfold merged_params. rewrite lookup_merged.
  destruct (TrimNONE (default ∅ (c_json c)) !! k) as [vj|] eqn:Ej.
  { intros [= ->]. apply lookup_TrimNONE in Ej as [? ?].
    split; [done |]. exists (c_json c). split; [set_solver | done]. }
  destruct (TrimNONE (default ∅ (c_data c)) !! k) as [vd|] eqn:Ed.
  { intros [= ->]. apply lookup_TrimNONE in Ed as [? ?].
    split; [done |]. exists (c_data c). split; [set_solver | done]. }
  intros Eq. apply lookup_TrimNONE in Eq as [? ?].
  split; [done |]. exists (c_params c). split; [set_solver | done].
Qed.

(** X5. In a descriptor, of the direct path or of the generic path, no key
    of [params] maps to the sentinel; a key is in [params] exactly when one
    of the three groups of the call maps it to a value that is not the
    sentinel, and its value is then the value of one of the groups. The
    other keywords of the call ([job_id] among them) never get into
    [params]. *)
Theorem descriptor_params_hold_no_sentinel (rnd : Z) (kwargs : Kwargs)
    (c : Call) (d : JobDescriptor) :
  (d = job_on_request rnd c ∨
   ∃ self instance args s s',
     job self instance rnd args kwargs s = (Returns d, s') ∧
     job_captured self instance args kwargs s = Some c) →
  stripped (j_params d) ∧
  (∀ k v, j_params d !! k = Some v →
     ∃ g, g ∈ [c_json c; c_data c; c_params c] ∧ default ∅ g !! k = Some v) ∧
  (∀ k, is_Some (j_params d !! k) ↔
     ∃ g v, g ∈ [c_json c; c_data c; c_params c] ∧
            default ∅ g !! k = Some v ∧ v ≠ VUnset).
Proof.
  intros Hd. apply descriptor_of_call in Hd as (_ & _ & -> & _).
  split; [| split].
  - intros k v Hk. apply merged_params_lookup in Hk as [Hv _].
    by destruct v.
  - intros k v Hk. by apply merged_params_lookup in Hk as [_ Hg].
  - intros k. split.
    + intros [v Hk]. apply merged_params_lookup in Hk as (Hv & g & Hg & Hk).
      by exists g, v.
    + intros (g & v & Hg & Hk & Hv).
      assert (Hin : TrimNONE (default ∅ g) !! k = Some v)
        by by apply lookup_TrimNONE.
      unfold merged_params. rewrite lookup_merged.
      destruct (TrimNONE (default ∅ (c_json c)) !! k) eqn:Ej; [done |].
      destruct (TrimNONE (default ∅ (c_data c)) !! k) eqn:Ed; [done |].
      apply list_elem_of_In in Hg. simpl in Hg.
      destruct Hg as [<- | [<- | [<- | []]]]; by simplify_eq.
Qed.


(** X7. What [__get__] hands out. Looked up on the class (no instance) it
    is the function itself. Looked up on an instance, the wrapper has the
    direct [job_on_request] as [job] exactly when the operation is batchable
    and its qualified name is [APIClient.request], the capturing [job]
    exactly when it is batchable under another name, and no [job] at all
    exactly when it is not batchable. *)
Theorem job_attribute_dispatch (self : Inner) (instance : ObjId) :
  Inner_get self None = Plain (func self) ∧
  (getattr_job (Inner_get self (Some instance)) = Returns Job_on_request ↔
   batchable self = true ∧ qualname (func self) = "APIClient.request") ∧
  (getattr_job (Inner_get self (Some instance)) = Returns Job ↔
   batchable self = true ∧ qualname (func self) ≠ "APIClient.request") ∧
  (getattr_job (Inner_get self (Some instance)) = Raises AttributeError ↔
   batchable self = false).
Proof.
  split; [done |]. simpl.
  destruct (batchable self);
    destruct (String.eqb_spec (qualname (func self)) "APIClient.request");
    simpl; intuition congruence.
Qed.

End Descriptors.

(** ** What RETRY costs *)

Section Retry_cost.
Context `{Env : Environment}.

Lemma transient_rounds_logs attempt k s sk :
  (∀ s, slept (drive attempt s).2 = slept s) →
  (∀ s, (length (wire (drive attempt s).2) ≤ S (length (wire s)))%nat) →
  transient_rounds attempt k s sk →
  slept sk = (slept s ++ replicate k (1 # 2)%Q)%list ∧
  (length (wire sk) ≤ length (wire s) + k)%nat.
Proof.
  intros Hquiet Hwire. induction 1 as [s | k s e s1 sk Hrun He _ [IH1 IH2]].
  - simpl. rewrite app_nil_r. split; [done | lia].
  - specialize (Hquiet s). specialize (Hwire s). rewrite Hrun in Hquiet, Hwire.
    simpl in *. rewrite IH1, Hquiet, <- app_assoc. split; [done | lia].
Qed.

(** X8. Around a function that does not sleep itself and sends at most
    one call per attempt, the wrapper adds [k] pauses of 0.5 seconds and
    nothing else to the sleeps, with [k] at most [count], and sends at most
    [k + 1] calls; a transient fault comes out of the wrapper only when all
    the [count] pauses have been made. *)
Theorem RETRY_pauses_and_calls (count : option Z) (func : AsyncFunc)
    (args : list Value) (kwargs : Kwargs) (s : Store) :
  let n := Z.to_nat (default 10%Z count) in
  let attempt := func args kwargs in
  (∀ s, slept (drive attempt s).2 = slept s) →
  (∀ s, (length (wire (drive attempt s).2) ≤ S (length (wire s)))%nat) →
  let done := drive (RETRY count func args kwargs) s in
  ∃ k, (k ≤ n)%nat ∧
       slept done.2 = (slept s ++ replicate k (1 # 2)%Q)%list ∧
       (length (wire done.2) ≤ length (wire s) + k + 1)%nat ∧
       (∀ e, done.1 = Raises e → is_transient e = true → k = n).
Proof.
  intros n attempt Hquiet Hwire done. subst done.
  destruct (retry_loop_total attempt n s) as (k & sk & Hr & Hle & Hend).
  assert (Heq : drive (RETRY count func args kwargs) s = drive attempt sk)
    by by apply (retry_loop_rounds attempt k s sk).
  destruct (transient_rounds_logs attempt k s sk Hquiet Hwire Hr)
    as [Hslept Hsent].
  exists k. rewrite Heq, Hquiet, Hslept.
  split; [done |]. split; [done |]. split.
  - specialize (Hwire sk). lia.
  - intros e He Ht. destruct Hend as [? | Hend]; [done |].
    rewrite (Hend e He) in Ht. done.
Qed.

(** X9. A count that is zero or negative guards nothing: the wrapper is
    the function, called once. *)
Theorem RETRY_without_rounds (z : Z) (func : AsyncFunc)
    (args : list Value) (kwargs : Kwargs) :
  (z ≤ 0)%Z →
  RETRY (Some z) func args kwargs = func args kwargs.
Proof.
  intros Hz. unfold RETRY. simpl.
  by replace (Z.to_nat z) with 0 by lia.
Qed.

End Retry_cost.

(** ** The endpoint operations on the wire *)

Section Endpoints.
Context `{Env : Environment}.

(** A blocking call of an operation whose body awaits one call of
    [self.core.request] and returns what it gets. *)
Lemma wrapper_one_request op self args kwargs l s head t c :
  body (func op) self args kwargs = await (Request (CoreOf self) c) →
  getattr_core s self = Some head →
  getattr_request s head = Some (Transport t) →
  is_running l = false → is_closed l = false →
  wrapper op self args kwargs l s
    = (materialize (transport t (wire s) c), Idle, send t c s).
Proof.
  intros Hbody Hcore Hreq Hl Hopen. unfold wrapper. rewrite Hbody.
  assert (Hdrive : drive (await (Request (CoreOf self) c)) s
                   = (transport t (wire s) c, send t c s)).
  { unfold await. cbn [drive perform resolve]. rewrite Hcore. simpl.
    rewrite Hreq. simpl. by destruct (transport t (wire s) c). }
  rewrite Hdrive. by destruct l, (transport t (wire s) c).
Qed.

Lemma wrapper_TypeError op self args kwargs l s :
  body (func op) self args kwargs = Raise TypeError →
  is_running l = false → is_closed l = false →
  wrapper op self args kwargs l s = (Raises TypeError, Idle, s).
Proof.
  intros Hbody Hl Hopen. unfold wrapper. rewrite Hbody. by destruct l.
Qed.

(** X10. [lines], called where the thread has no current loop or an open
    loop that is not running, on an instance whose [core] holds the transport
    [t], sends one GET to [t] and hands back what
    [t] answers, value or exception: to /countLinesPlain when [plain] is
    true in Python's sense, to /countLines when it is not or is left out;
    [plain] may be given by position or by keyword. *)
Theorem lines_request (self head : ObjId) (t : nat) (plain : Value)
    (l : Loop) (s : Store) :
  getattr_core s self = Some head →
  getattr_request s head = Some (Transport t) →
  is_running l = false → is_closed l = false →
  let result c := (materialize (transport t (wire s) c), Idle, send t c s) in
  let chosen := call "GET" (if truthy plain then "/countLinesPlain"
                            else "/countLines") in
  wrapper (UNIVERSAL None lines) self [] ∅ l s
    = result (call "GET" "/countLines") ∧
  wrapper (UNIVERSAL None lines) self [] (<["plain" := plain]> ∅) l s
    = result chosen ∧
  wrapper (UNIVERSAL None lines) self [plain] ∅ l s = result chosen.
Proof.
  intros Hcore Hreq Hl Hopen result chosen. subst result chosen.
  repeat split; eapply wrapper_one_request; try done.
  - change (body (func (UNIVERSAL None lines)) self [] (<["plain":=plain]> ∅))
      with (if truthy plain
            then await (core_request self "GET" "/countLinesPlain")
            else await (core_request self "GET" "/countLines")).
    by destruct (truthy plain).
  - change (body (func (UNIVERSAL None lines)) self [plain] ∅)
      with (if truthy plain
            then await (core_request self "GET" "/countLinesPlain")
            else await (core_request self "GET" "/countLines")).
    by destruct (truthy plain).
Qed.

(** X11. The three operations without parameters: called with no argument
    where the thread has no current loop or an open loop that is not running,
    [version], [access] and [queries] send one GET,
    to /version, /checkAccess and /availableQueries, and hand back what the
    transport answers; called with any argument, by position or by keyword,
    they raise [TypeError] and send nothing. *)
Theorem parameterless_requests (self head : ObjId) (t : nat)
    (l : Loop) (s : Store) :
  getattr_core s self = Some head →
  getattr_request s head = Some (Transport t) →
  is_running l = false → is_closed l = false →
  Forall (λ e : Function * string,
    wrapper (UNIVERSAL None e.1) self [] ∅ l s
      = (materialize (transport t (wire s) (call "GET" e.2)), Idle,
         send t (call "GET" e.2) s) ∧
    ∀ args kwargs, args ≠ [] ∨ kwargs ≠ ∅ →
      wrapper (UNIVERSAL None e.1) self args kwargs l s
        = (Raises TypeError, Idle, s))
    [(version, "/version"); (access, "/checkAccess");
     (queries, "/availableQueries")].
Proof.
  intros Hcore Hreq Hl Hopen.
  assert (Hbind : ∀ args kwargs, args ≠ [] ∨ kwargs ≠ ∅ →
            bind_arguments [] args kwargs = None).
  { intros [| a args] kwargs [Ha | Hk]; try done.
    unfold bind_arguments. simpl. case_bool_decide as Hsub; [| done].
    exfalso. apply Hk. apply dom_empty_inv_L.
    apply (anti_symm (⊆)); [done | apply empty_subseteq]. }
  repeat (apply Forall_cons_2;
    [split;
     [by eapply wrapper_one_request
     | intros args kwargs Hargs; apply wrapper_TypeError; [| done | done];
       cbn -[bind_arguments]; unfold async_def;
       by rewrite (Hbind args kwargs Hargs)] |]).
  apply Forall_nil_2.
Qed.

(** X12. [check], [search] and [passwords], called by keyword where the
    thread has no current loop or an open loop that is not running, send one
    POST to /checkLines, /search and /emailPasswords
    with a JSON body of the arguments, and hand back what the transport
    answers. [insert] left out is [False]; [direction], [token] and [limit]
    left out are the sentinel, which goes to the transport as it is; [token]
    is sent under the key [pageToken]. *)
Theorem post_requests (self head : ObjId) (t : nat) (l : Loop) (s : Store) :
  getattr_core s self = Some head →
  getattr_request s head = Some (Transport t) →
  is_running l = false → is_closed l = false →
  let result c := (materialize (transport t (wire s) c), Idle, send t c s) in
  (∀ lines insert,
     wrapper (UNIVERSAL None check) self []
       (<["lines" := lines]> (<["insert" := insert]> ∅)) l s
     = result (post "/checkLines"
                 (<["lines" := lines]> (<["insert" := insert]> ∅))) ∧
     wrapper (UNIVERSAL None check) self [] (<["lines" := lines]> ∅) l s
     = result (post "/checkLines"
                 (<["lines" := lines]> (<["insert" := VBool false]> ∅)))) ∧
  (∀ searchBy query direction token,
     wrapper (UNIVERSAL None search) self []
       (<["searchBy" := searchBy]> (<["query" := query]>
          (<["direction" := direction]> (<["token" := token]> ∅)))) l s
     = result (post "/search"
                 (<["searchBy" := searchBy]> (<["query" := query]>
                    (<["direction" := direction]>
                       (<["pageToken" := token]> ∅))))) ∧
     wrapper (UNIVERSAL None search) self []
       (<["searchBy" := searchBy]> (<["query" := query]> ∅)) l s
     = result (post "/search"
                 (<["searchBy" := searchBy]> (<["query" := query]>
                    (<["direction" := VUnset]>
                       (<["pageToken" := VUnset]> ∅)))))) ∧
  (∀ emails limit,
     wrapper (UNIVERSAL None passwords) self []
       (<["emails" := emails]> (<["limit" := limit]> ∅)) l s
     = result (post "/emailPasswords"
                 (<["emails" := emails]> (<["limit" := limit]> ∅))) ∧
     wrapper (UNIVERSAL None passwords) self [] (<["emails" := emails]> ∅) l s
     = result (post "/emailPasswords"
                 (<["emails" := emails]> (<["limit" := VUnset]> ∅)))).
Proof.
  intros Hcore Hreq Hl Hopen result. subst result.
  repeat split; intros; by eapply wrapper_one_request.
Qed.

Lemma bind_positional_drop sig : ∀ args,
  bind_positional sig args =
  if decide (length args ≤ length sig)%nat
  then Some (args, drop (length args) sig)
  else None.
Proof.
  induction sig as [| p sig IH]; intros [| a args]; simpl; try done.
  rewrite IH. repeat case_decide; try done; lia.
Qed.

Lemma bind_keywords_missing rest kwargs p :
  p ∈ rest → p_default p = None → kwargs !! p_name p = None →
  bind_keywords rest kwargs = None.
Proof.
  induction rest as [| q rest IH]; intros Hp Hdef Hkw;
    [by apply elem_of_nil in Hp |].
  simpl. apply elem_of_cons in Hp as [<- | Hp].
  - by rewrite Hkw, Hdef.
  - rewrite (IH Hp Hdef Hkw).
    by destruct (from_option Some (p_default q) (kwargs !! p_name q)).
Qed.

Lemma bind_arguments_misbound sig args kwargs :
  misbound sig args kwargs → bind_arguments sig args kwargs = None.
Proof.
  unfold bind_arguments. rewrite bind_positional_drop.
  intros [Hlen | [(k & Hk & Hnot) | (p & Hp & Hdef & Hkw)]].
  - case_decide; [lia | done].
  - case_decide; [| done]. case_bool_decide as Hsub; [| done].
    exfalso. apply Hnot. apply elem_of_dom in Hk. apply Hsub in Hk.
    by apply elem_of_list_to_set in Hk.
  - case_decide; [| done]. case_bool_decide; [| done].
    by rewrite (bind_keywords_missing _ _ p Hp Hdef Hkw).
Qed.

(** X13. A call of an endpoint operation whose arguments do not bind to its
    signature raises [TypeError] where the thread has no current loop or an
    open loop that is not running, sends nothing and leaves the store as it
    is. Such are the calls with more positional
    arguments than parameters, with a keyword that names no parameter
    ([job_id] for one) or a parameter given by position already, and with a
    required parameter ([lines], [searchBy], [query], [emails]) left out. *)
Theorem endpoint_argument_errors :
  Forall (λ e : list Param * Inner,
    ∀ self args kwargs l s,
      misbound e.1 args kwargs →
      is_running l = false → is_closed l = false →
      wrapper e.2 self args kwargs l s = (Raises TypeError, Idle, s))
    Antipublic_endpoints ∧
  Forall (λ e : list Param * Inner,
    ∀ args kwargs, is_Some (kwargs !! "job_id") → misbound e.1 args kwargs)
    Antipublic_endpoints ∧
  (∀ kwargs, kwargs !! "lines" = None → misbound check_params [] kwargs) ∧
  (∀ kwargs, kwargs !! "searchBy" = None ∨ kwargs !! "query" = None →
             misbound search_params [] kwargs) ∧
  (∀ kwargs, kwargs !! "emails" = None → misbound passwords_params [] kwargs).
Proof.
  split; [| split; [| split; [| split]]].
  - unfold Antipublic_endpoints.
    repeat (apply Forall_cons_2;
      [intros self args kwargs l s Hmis Hl Hopen;
       apply wrapper_TypeError; [| done | done];
       apply bind_arguments_misbound in Hmis;
       cbn -[bind_arguments] in Hmis |- *; unfold async_def;
       by rewrite Hmis |]).
    apply Forall_nil_2.
  - unfold Antipublic_endpoints.
    repeat (apply Forall_cons_2;
      [intros args kwargs Hid; right; left; exists "job_id";
       split; [done |]; cbn [fst];
       intros Hin; rewrite fmap_drop in Hin; apply subseteq_drop in Hin;
       revert Hin; apply (bool_decide_unpack (¬ _)); exact I |]).
    apply Forall_nil_2.
  - intros kwargs H. right. right. exists (required "lines").
    split; [by left | done].
  - intros kwargs [H | H]; right; right.
    + exists (required "searchBy"). split; [by left | done].
    + exists (required "query"). split; [right; by left | done].
  - intros kwargs H. right. right. exists (required "emails").
    split; [by left | done].
Qed.

Lemma lookup_objs_new (l new : list Instance) (i : nat) :
  (l ++ new)%list !! (length l + i)%nat = new !! i.
Proof. by rewrite lookup_app_r, Nat.add_comm, Nat.add_sub by lia. Qed.

(** X14. The store after [Antipublic.__init__]: the client is its own
    [core] and the [core] of its groups [info] and [account]; the client
    holds the transport, the groups have no [request] of their own. So a call
    through the [core] of any of the three reaches the transport, and the
    head instance that [job] would pick for any of them is the client. The
    objects that existed before, the capture cells and the logs are
    untouched. *)
Theorem Antipublic_init_links (t : nat) (s : Store) :
  let client := length (objs s) in
  let s' := (Antipublic_init t s).2 in
  (Antipublic_init t s).1 = (client, S client, S (S client)) ∧
  Forall (λ o,
    getattr_core s' o = Some client ∧
    resolve s' (CoreOf o) = Some (Transport t) ∧
    default o (getattr_core s' o) = client)
    [client; S client; S (S client)] ∧
  getattr_request s' client = Some (Transport t) ∧
  getattr_request s' (S client) = None ∧
  getattr_request s' (S (S client)) = None ∧
  (∀ o, (o < client)%nat → objs s' !! o = objs s !! o) ∧
  cells s' = cells s ∧ wire s' = wire s ∧ slept s' = slept s.
Proof.
  intros client s'.
  assert (H0 : objs s' !! client
               = Some {| core := Some client;
                         request := Some (Transport t) |}).
  { subst s' client. simpl.
    by rewrite <- (Nat.add_0_r (length (objs s))), lookup_objs_new. }
  assert (H1 : objs s' !! S client
               = Some {| core := Some client; request := None |}).
  { subst s' client. simpl.
    by rewrite <- (Nat.add_1_r (length (objs s))), lookup_objs_new. }
  assert (H2 : objs s' !! S (S client)
               = Some {| core := Some client; request := None |}).
  { subst s' client. simpl.
    replace (S (S (length (objs s)))) with (length (objs s) + 2) by lia.
    by rewrite lookup_objs_new. }
  split; [done |].
  unfold resolve, getattr_core, getattr_request.
  split; [| split; [by rewrite H0 | split; [by rewrite H1 |
          split; [by rewrite H2 | split; [| done]]]]].
  - clearbody s' client.
    repeat (apply Forall_cons_2; [|]); [| | | apply Forall_nil_2].
    + rewrite H0. simpl. by rewrite H0.
    + rewrite H1. simpl. by rewrite H0.
    + rewrite H2. simpl. by rewrite H0.
  - intros o Ho. subst s'. simpl. by rewrite lookup_app_l.
Qed.

End Endpoints.

(** * Concrete runs of the further properties *)

Lemma job_runs_offline_witness :
  let Env := flaky 0 in
  let done := job (UNIVERSAL (Some true) two_calls) 1 9 [] ∅ client_store in
  done.1 = Returns {| j_id := "9"; j_method := "POST"; j_uri := "/second";
                      j_params := ∅ |} ∧
  wire done.2 = [] ∧ objs done.2 = objs client_store.
Proof.
  intros Env done.
  exact (job_runs_offline (UNIVERSAL (Some true) two_calls) 1 9 [] ∅
           client_store (Transport 0)
           (Returns VNone, [call "GET" "/first"; call "POST" "/second"])
           eq_refl eq_refl).
Defined.


Lemma job_intercepts_only_head_witness :
  let Env := flaky 0 in
  let done := job (UNIVERSAL (Some true) own_request) 1 1 [] ∅
                two_transports in
  done.1 = Raises AttributeError ∧
  wire done.2 = [(1, call "GET" "/first")] ∧
  getattr_request done.2 0 = Some (Transport 0).
Proof.
  intros Env done.
  refine (job_intercepts_only_head (UNIVERSAL (Some true) own_request) 1 0 1
            [] ∅ two_transports (Transport 0) 1 (call "GET" "/first")
            eq_refl _ eq_refl eq_refl eq_refl).
  lia.
Defined.

Lemma job_without_request_witness :
  let Env := flaky 0 in
  let done := job (UNIVERSAL (Some true) two_calls) 0 1 [] ∅ bare_store in
  done.1 = Raises AttributeError ∧
  wire done.2 = [] ∧ slept done.2 = [] ∧ objs done.2 = objs bare_store.
Proof.
  intros Env done.
  exact (job_without_request (UNIVERSAL (Some true) two_calls) 0 1 [] ∅
           bare_store eq_refl).
Defined.

Lemma descriptor_params_hold_no_sentinel_witness :
  let Env := flaky 0 in
  let d := job_on_request 1 overlapping in
  stripped (j_params d) ∧
  j_params d = <["k" := VInt 3]> (<["q" := VInt 2]> (<["u" := VInt 1]> ∅)).
Proof.
  intros Env d.
  destruct (descriptor_params_hold_no_sentinel 1 ∅ overlapping d
              (or_introl eq_refl)) as (H & _).
  split; [exact H | reflexivity].
Defined.


Lemma RETRY_pauses_and_calls_witness :
  let Env := flaky 2 in
  let done := drive (RETRY None ping [] ∅) client_store in
  ∃ k, (k ≤ 10)%nat ∧
       slept done.2 = replicate k (1 # 2)%Q ∧
       (length (wire done.2) ≤ k + 1)%nat.
Proof.
  intros Env done.
  destruct (RETRY_pauses_and_calls None ping [] ∅ client_store)
    as (k & Hk & Hslept & Hwire & _).
  - intros s. unfold ping, await. simpl.
    destruct (getattr_request s 0) as [[t | cell] |]; simpl;
      by repeat case_decide.
  - intros s. unfold ping, await. simpl.
    destruct (getattr_request s 0) as [[t | cell] |]; simpl;
      repeat case_decide; simpl; rewrite ?length_app; simpl; lia.
  - exists k. split; [exact Hk |]. split; [exact Hslept | exact Hwire].
Defined.

Lemma RETRY_without_rounds_witness :
  let Env := flaky 2 in
  (drive (RETRY (Some (-3)%Z) ping [] ∅) client_store).1 = Raises ReadTimeout.
Proof.
  intros Env.
  rewrite (RETRY_without_rounds (-3) ping [] ∅); [reflexivity | lia].
Defined.

Lemma lines_request_witness :
  let Env := flaky 0 in
  wrapper (UNIVERSAL None lines) 1 [] (<["plain" := VInt 1]> ∅) Idle
    client_store
  = (Returns (Materialized (VStr "ok")), Idle,
     send 0 (call "GET" "/countLinesPlain") client_store).
Proof.
  intros Env.
  destruct (lines_request 1 0 0 (VInt 1) Idle client_store
              eq_refl eq_refl eq_refl eq_refl) as (_ & H & _).
  exact H.
Defined.

Lemma parameterless_requests_witness :
  let Env := flaky 0 in
  wrapper (UNIVERSAL None access) 2 [] ∅ NoLoop client_store
  = (Returns (Materialized (VStr "ok")), Idle,
     send 0 (call "GET" "/checkAccess") client_store) ∧
  wrapper (UNIVERSAL None access) 2 [VInt 1] ∅ NoLoop client_store
  = (Raises TypeError, Idle, client_store).
Proof.
  intros Env.
  pose proof (parameterless_requests 2 0 0 NoLoop client_store
                eq_refl eq_refl eq_refl eq_refl) as H.
  destruct (Forall_lookup_1 _ _ 1 _ H eq_refl) as [H1 H2].
  split; [exact H1 |]. apply H2. by left.
Defined.

Lemma post_requests_witness :
  let Env := flaky 0 in
  wrapper (UNIVERSAL None passwords) 0 []
    (<["emails" := VList [VStr "a@b.c"]]> ∅) Idle client_store
  = (Returns (Materialized (VStr "ok")), Idle,
     send 0 (post "/emailPasswords"
               (<["emails" := VList [VStr "a@b.c"]]>
                  (<["limit" := VUnset]> ∅))) client_store).
Proof.
  intros Env.
  destruct (post_requests 0 0 0 Idle client_store
              eq_refl eq_refl eq_refl eq_refl) as (_ & _ & H).
  exact (proj2 (H (VList [VStr "a@b.c"]) VNone)).
Defined.

Lemma endpoint_argument_errors_witness :
  let Env := flaky 0 in
  wrapper (UNIVERSAL None check) 0 []
    (<["job_id" := VStr "7"]> check_kwargs) Idle client_store
  = (Raises TypeError, Idle, client_store) ∧
  wrapper (UNIVERSAL None check) 0 [] ∅ Idle client_store
  = (Raises TypeError, Idle, client_store).
Proof.
  intros Env.
  destruct endpoint_argument_errors as (Herr & Hid & Hlines & _).
  pose proof (Forall_lookup_1 _ _ 4 _ Herr eq_refl) as Hcheck.
  pose proof (Forall_lookup_1 _ _ 4 _ Hid eq_refl) as Hcheck_id.
  simpl in Hcheck, Hcheck_id. split.
  - apply Hcheck; [| done | done]. apply Hcheck_id. by eexists.
  - apply Hcheck; [| done | done]. by apply Hlines.
Defined.

Lemma Antipublic_init_links_witness :
  let Env := flaky 0 in
  resolve client_store (CoreOf 1) = Some (Transport 0) ∧
  resolve client_store (CoreOf 2) = Some (Transport 0).
Proof.
  intros Env.
  destruct (Antipublic_init_links 0 empty_store) as (_ & H & _).
  split.
  - exact (proj1 (proj2 (Forall_lookup_1 _ _ 1 _ H eq_refl))).
  - exact (proj1 (proj2 (Forall_lookup_1 _ _ 2 _ H eq_refl))).
Defined.
